(** * Search harvesting pipeline of xiaohongshu_mcp_python

    A shallow embedding of [actions/search_model.py] and
    [actions/search.py], and the properties of the filter translator, the
    item normaliser, the de-duplicating accumulator and the [search]
    orchestrator.

    Python values are modelled as follows: [int] is [Z]; [str] is [string]
    (a byte string holding the UTF-8 encoding); [Optional[T]] is [option T];
    a [list] is a [list]; the [set] of seen ids is a [gset string]; decoded
    JSON is the inductive type [json]; an exception is a value of type
    [exn], and code that may raise returns a [result]. *)

From Stdlib Require Import ZArith Lia Ascii String List.
From stdpp Require Import base decidable option list strings gmap pretty.

Set Warnings "-register-all".

(** ** Python runtime: exceptions and fallible computations *)

Module Py.

(** The exception classes that occur in the two modules.  All of them derive
    from [Exception]; [ValidationError] (pydantic) and [JSONDecodeError]
    derive from [ValueError]; [PlaywrightTimeoutError] derives from
    playwright's [Error], not from [ValueError]. *)
Inductive exn_class :=
  | ValueError
  | ValidationError
  | JSONDecodeError
  | AttributeError
  | TypeError
  | KeyError
  | PlaywrightTimeoutError
  | PlaywrightError
  | RuntimeError.

Record exn := Exn { exn_cls : exn_class; exn_msg : string }.

(** [isinstance(e, ValueError)], as tested by an [except ValueError] clause. *)
Definition is_ValueError (e : exn) : bool :=
  match exn_cls e with
  | ValueError | ValidationError | JSONDecodeError => true
  | _ => false
  end.

(** [str(e)] *)
Definition str_exn (e : exn) : string := exn_msg e.

Inductive result (A : Type) :=
  | Ok (a : A)
  | Raise (e : exn).
Arguments Ok {A} a.
Arguments Raise {A} e.

Definition bind {A B} (m : result A) (k : A -> result B) : result B :=
  match m with
  | Ok a => k a
  | Raise e => Raise e
  end.

(** [try: m  except Exception as e: h e] *)
Definition try_except {A} (m : result A) (h : exn -> result A) : result A :=
  match m with
  | Ok a => Ok a
  | Raise e => h e
  end.

(** [try: m  except ValueError as e: h e] *)
Definition try_except_ValueError {A} (m : result A) (h : exn -> result A)
  : result A :=
  match m with
  | Ok a => Ok a
  | Raise e => if is_ValueError e then h e else Raise e
  end.

(** Truthiness of an [Optional[str]]: neither [None] nor the empty string. *)
Definition truthy_opt_str (v : option string) : bool :=
  match v with
  | None => false
  | Some s => negb (String.eqb s "")
  end.

(** [str(n)] for an [int], as an f-string prints it. *)
Definition str_int (n : Z) : string := pretty n.

End Py.

Notation "x <- m ;; k" := (Py.bind m (fun x => k))
  (at level 100, m at next level, right associativity, only parsing).

(** ** actions/search_model.py *)

Module SearchModel.
Import Py.

Record FilterOption := {
  sort_by : option string;
  note_type : option string;
  publish_time : option string;
  search_scope : option string;
  location : option string
}.

(** [FilterOption()]: every field takes its declared default. *)
Definition FilterOption_default : FilterOption := {|
  sort_by := Some "综合";
  note_type := Some "不限";
  publish_time := Some "不限";
  search_scope := Some "不限";
  location := Some "不限"
|}.

Record InternalFilterOption := {
  filters_index : Z;
  tags_index : Z;
  text : string
}.

#[export] Instance InternalFilterOption_eq_dec : EqDecision InternalFilterOption.
Proof. solve_decision. Defined.

Definition opt (g t : Z) (s : string) : InternalFilterOption :=
  {| filters_index := g; tags_index := t; text := s |}.

Definition FILTER_OPTIONS_MAP : gmap Z (list InternalFilterOption) :=
  list_to_map [
    (1%Z, [ opt 1 1 "综合"; opt 1 2 "最新"; opt 1 3 "最多点赞";
            opt 1 4 "最多评论"; opt 1 5 "最多收藏" ]);
    (2%Z, [ opt 2 1 "不限"; opt 2 2 "视频"; opt 2 3 "图文" ]);
    (3%Z, [ opt 3 1 "不限"; opt 3 2 "一天内"; opt 3 3 "一周内";
            opt 3 4 "半年内" ]);
    (4%Z, [ opt 4 1 "不限"; opt 4 2 "已看过"; opt 4 3 "未看过";
            opt 4 4 "已关注" ]);
    (5%Z, [ opt 5 1 "不限"; opt 5 2 "同城"; opt 5 3 "附近" ])
  ].

Definition msg_no_group (filters_index : Z) : string :=
  "筛选组 " +:+ str_int filters_index +:+ " 不存在".

Definition msg_no_text (filters_index : Z) (text : string) : string :=
  "在筛选组 " +:+ str_int filters_index +:+ " 中未找到文本 '" +:+ text +:+ "'".

Definition find_internal_option (filters_index : Z) (text0 : string)
  : result InternalFilterOption :=
  match FILTER_OPTIONS_MAP !! filters_index with
  | None => Raise (Exn ValueError (msg_no_group filters_index))
  | Some options =>
      match List.find (fun option => String.eqb (text option) text0) options with
      | Some option => Ok option
      | None => Raise (Exn ValueError (msg_no_text filters_index text0))
      end
  end.

(** The [mapping] list of [convert_to_internal_filters]:
    field value, group index, group name. *)
Definition mapping (filter_option : FilterOption)
  : list (option string * Z * string) :=
  [ (sort_by filter_option, 1%Z, "排序依据");
    (note_type filter_option, 2%Z, "笔记类型");
    (publish_time filter_option, 3%Z, "发布时间");
    (search_scope filter_option, 4%Z, "搜索范围");
    (location filter_option, 5%Z, "位置距离") ].

Definition msg_wrapped (name : string) (e : exn) : string :=
  name +:+ "错误: " +:+ str_exn e.

(** The [for value, index, name in mapping] loop; [internal_filters] is the
    list built so far. *)
Fixpoint convert_loop (m : list (option string * Z * string))
    (internal_filters : list InternalFilterOption)
  : result (list InternalFilterOption) :=
  match m with
  | [] => Ok internal_filters
  | (value, index, name) :: m' =>
      if truthy_opt_str value then
        internal <- try_except_ValueError
                      (find_internal_option index (default "" value))
                      (fun e => Raise (Exn ValueError (msg_wrapped name e))) ;;
        convert_loop m' (internal_filters ++ [internal])
      else convert_loop m' internal_filters
  end.

Definition convert_to_internal_filters (filter_option : FilterOption)
  : result (list InternalFilterOption) :=
  convert_loop (mapping filter_option) [].

Definition msg_bad_group (g : Z) : string :=
  "无效的筛选组索引 " +:+ str_int g +:+ "，有效范围为 1-5".

Definition msg_bad_tag (g t : Z) (max_tag_index : nat) : string :=
  "筛选组 " +:+ str_int g +:+ " 的标签索引 " +:+ str_int t +:+ " 超出范围，"
  +:+ "有效范围为 1-" +:+ str_int (Z.of_nat max_tag_index).

Definition validate_internal_filter_option (filter_opt : InternalFilterOption)
  : result unit :=
  if bool_decide (filters_index filter_opt < 1 ∨ filters_index filter_opt > 5)%Z
  then Raise (Exn ValueError (msg_bad_group (filters_index filter_opt)))
  else
    match FILTER_OPTIONS_MAP !! filters_index filter_opt with
    | None => Raise (Exn ValueError (msg_no_group (filters_index filter_opt)))
    | Some options =>
        let max_tag_index := length options in
        if bool_decide (tags_index filter_opt < 1
                        ∨ tags_index filter_opt > Z.of_nat max_tag_index)%Z
        then Raise (Exn ValueError
               (msg_bad_tag (filters_index filter_opt) (tags_index filter_opt)
                            max_tag_index))
        else Ok tt
    end.

End SearchModel.

(** ** Decoded JSON and the Python operations applied to it *)

Module Json.
Import Py.

(** What [json.loads] and [response.json()] return.  Numbers are the
    integers; a JSON object is the list of its entries, each key once. *)
Inductive json :=
  | JNull
  | JBool (b : bool)
  | JInt (n : Z)
  | JStr (s : string)
  | JList (l : list json)
  | JDict (kvs : list (string * json)).

Fixpoint assoc (k : string) (kvs : list (string * json)) : option json :=
  match kvs with
  | [] => None
  | (k', v) :: kvs' => if String.eqb k' k then Some v else assoc k kvs'
  end.

(** [bool(v)] *)
Definition truthy (v : json) : bool :=
  match v with
  | JNull => false
  | JBool b => b
  | JInt n => negb (n =? 0)%Z
  | JStr s => negb (String.eqb s "")
  | JList l => match l with [] => false | _ => true end
  | JDict kvs => match kvs with [] => false | _ => true end
  end.

Definition no_attribute_get : exn :=
  Exn AttributeError "object has no attribute 'get'".

(** [d.get(k, dflt)]: only a dict has [get]. *)
Definition get (d : json) (k : string) (dflt : json) : result json :=
  match d with
  | JDict kvs => Ok (default dflt (assoc k kvs))
  | _ => Raise no_attribute_get
  end.

(** Byte [a] continues a UTF-8 sequence (10xxxxxx). *)
Definition is_continuation (a : ascii) : bool :=
  let n := nat_of_ascii a in (128 <=? n) && (n <? 192).

(** The characters of a [str], each as a one-character [str]. *)
Fixpoint code_points (s : string) : list string :=
  match s with
  | EmptyString => []
  | String a s' =>
      let continued :=
        match s' with String b _ => is_continuation b | EmptyString => false end in
      match code_points s' with
      | cp :: cps =>
          if continued then String a cp :: cps
          else String a EmptyString :: cp :: cps
      | [] => [String a EmptyString]
      end
  end.

(** [sub in s] for two [str]s. *)
Definition substring_in (sub s : string) : bool :=
  match index 0 sub s with
  | Some _ => true
  | None => false
  end.

(** [k in v] for a [str] [k]. *)
Definition contains (k : string) (v : json) : result bool :=
  match v with
  | JDict kvs => Ok (bool_decide (is_Some (assoc k kvs)))
  | JList l =>
      Ok (existsb (fun x => match x with JStr s => String.eqb s k | _ => false end) l)
  | JStr s => Ok (substring_in k s)
  | _ => Raise (Exn TypeError "argument is not iterable")
  end.

(** [v[k]] for a [str] [k]. *)
Definition getitem (v : json) (k : string) : result json :=
  match v with
  | JDict kvs =>
      match assoc k kvs with
      | Some x => Ok x
      | None => Raise (Exn KeyError k)
      end
  | _ => Raise (Exn TypeError "indices must be integers")
  end.

(** [len(v)] *)
Definition len (v : json) : result nat :=
  match v with
  | JList l => Ok (length l)
  | JDict kvs => Ok (length kvs)
  | JStr s => Ok (length (code_points s))
  | _ => Raise (Exn TypeError "object has no len()")
  end.

(** The elements that [for x in v] visits. *)
Definition iter (v : json) : result (list json) :=
  match v with
  | JList l => Ok l
  | JDict kvs => Ok (JStr <$> kvs.*1)
  | JStr s => Ok (JStr <$> code_points s)
  | _ => Raise (Exn TypeError "object is not iterable")
  end.

(** The result of [str(v)].  For a string it is the string, for an integer
    its decimal form, for [None], [True] and [False] their names; for a list
    or a dict it is Python's [repr] of it, which is kept as the term
    [Repr v]. *)
Inductive pystr :=
  | Str (s : string)
  | Repr (v : json).

Definition str (v : json) : pystr :=
  match v with
  | JStr s => Str s
  | JInt n => Str (str_int n)
  | JNull => Str "None"
  | JBool true => Str "True"
  | JBool false => Str "False"
  | _ => Repr v
  end.

End Json.

(** ** The model classes of the [config] package *)

Module Config.
Import Py Json.

(** The [config] package, which declares [User], [InteractInfo], [Cover],
    [Video], [NoteCard], [Feed] and [SearchResult], is not among the source
    files at hand.  Its classes are pydantic models; the records below take
    their fields from the data model of the spec, and a constructor [mk_C]
    stands for the call [C(...)], which validates every argument against
    the type of its field. *)

(** Modelled from the spec: the failure of a pydantic validation (the
    [config] classes are missing). *)
Definition invalid {A} : result A := Raise (Exn ValidationError "validation error").

(** Modelled from the spec: validation of a string field of a missing
    [config] class; it accepts a string. *)
Definition v_str (v : json) : result string :=
  match v with JStr s => Ok s | _ => invalid end.

(** Modelled from the spec: validation of an optional string field of a
    missing [config] class; it accepts [None] or a string. *)
Definition v_opt_str (v : json) : result (option string) :=
  match v with JNull => Ok None | JStr s => Ok (Some s) | _ => invalid end.

(** Modelled from the spec: validation of a boolean field of a missing
    [config] class. *)
Definition v_bool (v : json) : result bool :=
  match v with JBool b => Ok b | _ => invalid end.

(** Modelled from the spec: validation of an integer field of a missing
    [config] class. *)
Definition v_int (v : json) : result Z :=
  match v with JInt n => Ok n | _ => invalid end.

(** Modelled from the spec: validation of a field of a missing [config]
    class that holds an ordered sequence. *)
Definition v_list (v : json) : result (list json) :=
  match v with JList l => Ok l | _ => invalid end.

(** Modelled from the spec: an optional field of a missing [config] class
    whose type the spec leaves open; any value is accepted. *)
Definition v_optional (v : json) : option json :=
  match v with JNull => None | _ => Some v end.

(** Modelled from the spec: class [User] (spec, UserRef): userId, nickname,
    avatar, description, optional gender, optional ipLocation. *)
Record User := {
  user_id : string;
  nickname : string;
  avatar : string;
  desc : string;
  gender : option json;
  ip_location : option string
}.

(** Modelled from the spec: the call [User(...)] of the missing class. *)
Definition mk_User (user_id nickname avatar desc gender ip_location : json)
  : result User :=
  a <- v_str user_id ;; b <- v_str nickname ;; c <- v_str avatar ;;
  d <- v_str desc ;; f <- v_opt_str ip_location ;;
  Ok {| user_id := a; nickname := b; avatar := c; desc := d;
        gender := v_optional gender; ip_location := f |}.

(** Modelled from the spec: class [InteractInfo] (spec, InteractionCounts):
    two booleans and four counts kept as display strings. *)
Record InteractInfo := {
  liked : bool;
  liked_count : pystr;
  collected : bool;
  collected_count : pystr;
  comment_count : pystr;
  share_count : pystr
}.

(** Modelled from the spec: the call [InteractInfo(...)] of the missing
    class; the four counts are already strings. *)
Definition mk_InteractInfo (liked : json) (liked_count : pystr)
    (collected : json) (collected_count comment_count share_count : pystr)
  : result InteractInfo :=
  a <- v_bool liked ;; b <- v_bool collected ;;
  Ok {| liked := a; liked_count := liked_count; collected := b;
        collected_count := collected_count; comment_count := comment_count;
        share_count := share_count |}.

(** Modelled from the spec: class [Cover] (spec, CoverImage): url, width,
    height, fileId. *)
Record Cover := {
  url : string;
  width : Z;
  height : Z;
  file_id : string
}.

(** Modelled from the spec: the call [Cover(...)] of the missing class. *)
Definition mk_Cover (url width height file_id : json) : result Cover :=
  a <- v_str url ;; b <- v_int width ;; c <- v_int height ;;
  d <- v_str file_id ;;
  Ok {| url := a; width := b; height := c; file_id := d |}.

(** Modelled from the spec: class [Video] (spec, VideoInfo): media
    descriptor, id, duration, dimensions, primary and backup stream URLs,
    and the h264, h265 and av1 stream lists. *)
Record Video := {
  media : json;
  video_id : string;
  duration : Z;
  video_width : Z;
  video_height : Z;
  master_url : string;
  backup_urls : list json;
  stream : json;
  h264 : list json;
  h265 : list json;
  av1 : list json
}.

(** Modelled from the spec: the call [Video(...)] of the missing class. *)
Definition mk_Video (media video_id duration width height master_url
    backup_urls stream h264 h265 av1 : json) : result Video :=
  a <- v_str video_id ;; b <- v_int duration ;; c <- v_int width ;;
  d <- v_int height ;; e <- v_str master_url ;; f <- v_list backup_urls ;;
  g <- v_list h264 ;; h <- v_list h265 ;; i <- v_list av1 ;;
  Ok {| media := media; video_id := a; duration := b; video_width := c;
        video_height := d; master_url := e; backup_urls := f;
        stream := stream; h264 := g; h265 := h; av1 := i |}.

(** Modelled from the spec: class [NoteCard]: type, displayTitle, user,
    interaction counts, cover, optional video.  [images_list] is always
    passed as [None]. *)
Record NoteCard := {
  card_type : string;
  display_title : string;
  user : User;
  interact_info : InteractInfo;
  cover : Cover;
  images_list : option (list json);
  video : option Video
}.

(** Modelled from the spec: the call [NoteCard(...)] of the missing class. *)
Definition mk_NoteCard (type display_title : json) (user : User)
    (interact_info : InteractInfo) (cover : Cover)
    (images_list : option (list json)) (video : option Video)
  : result NoteCard :=
  a <- v_str type ;; b <- v_str display_title ;;
  Ok {| card_type := a; display_title := b; user := user;
        interact_info := interact_info; cover := cover;
        images_list := images_list; video := video |}.

(** Modelled from the spec: class [Feed] (spec, ContentItem): id, modelType,
    optional trackId, optional xsecToken, card. *)
Record Feed := {
  feed_id : string;
  model_type : string;
  note_card : NoteCard;
  track_id : option string;
  xsec_token : option string
}.

(** Modelled from the spec: the call [Feed(...)] of the missing class. *)
Definition mk_Feed (id model_type : json) (note_card : NoteCard)
    (track_id xsec_token : json) : result Feed :=
  a <- v_str id ;; b <- v_str model_type ;; c <- v_opt_str track_id ;;
  d <- v_opt_str xsec_token ;;
  Ok {| feed_id := a; model_type := b; note_card := note_card;
        track_id := c; xsec_token := d |}.

(** Modelled from the spec: the fields of the missing class [SearchResult]
    (spec, HarvestResult): items, hasMore, total. *)
Record HarvestResult := {
  items : list Feed;
  has_more : bool;
  total : Z
}.

(** Modelled from the spec: a value of the missing class [SearchResult].  It
    records the keyword arguments of the call that built it, which is either
    [SearchResult(items=, has_more=, total=)] or
    [SearchResult(success=, message=, feeds=)]. *)
Inductive SearchResult :=
  | Harvest (r : HarvestResult)
  | Failed (success : bool) (message : string) (feeds : list Feed).

End Config.

(** ** actions/search.py *)

Module Search.
Import Py Json Config SearchModel.

(** *** [_convert_item_to_feed] *)

Definition empty_dict : json := JDict [].

(** The body of the [try] block. *)
Definition convert_body (item : json) : result Feed :=
  note_card_data <- get item "noteCard" empty_dict ;;
  user_data <- get note_card_data "user" empty_dict ;;
  interact_data <- get note_card_data "interactInfo" empty_dict ;;
  cover_data <- get note_card_data "cover" empty_dict ;;
  video_data <- get note_card_data "video" JNull ;;
  user <- (a <- get user_data "userId" (JStr "") ;;
           b' <- get user_data "nickName" (JStr "") ;;
           b <- get user_data "nickname" b' ;;
           c <- get user_data "avatar" (JStr "") ;;
           d <- get user_data "desc" (JStr "") ;;
           e <- get user_data "gender" JNull ;;
           f <- get user_data "ipLocation" JNull ;;
           mk_User a b c d e f) ;;
  interact_info <- (a <- get interact_data "liked" (JBool false) ;;
                    b <- get interact_data "likedCount" (JStr "0") ;;
                    c <- get interact_data "collected" (JBool false) ;;
                    d <- get interact_data "collectedCount" (JStr "0") ;;
                    e <- get interact_data "commentCount" (JStr "0") ;;
                    f <- get interact_data "sharedCount" (JStr "0") ;;
                    mk_InteractInfo a (str b) c (str d) (str e) (str f)) ;;
  cover <- (a <- get cover_data "url" (JStr "") ;;
            b <- get cover_data "width" (JInt 0) ;;
            c <- get cover_data "height" (JInt 0) ;;
            d <- get cover_data "fileId" (JStr "") ;;
            mk_Cover a b c d) ;;
  video <- (if truthy video_data then
              a <- get video_data "media" empty_dict ;;
              b <- get video_data "videoId" (JStr "") ;;
              c <- get video_data "duration" (JInt 0) ;;
              d <- get video_data "width" (JInt 0) ;;
              e <- get video_data "height" (JInt 0) ;;
              f <- get video_data "masterUrl" (JStr "") ;;
              g <- get video_data "backupUrls" (JList []) ;;
              h <- get video_data "stream" empty_dict ;;
              i <- get video_data "h264" (JList []) ;;
              j <- get video_data "h265" (JList []) ;;
              k <- get video_data "av1" (JList []) ;;
              v <- mk_Video a b c d e f g h i j k ;;
              Ok (Some v)
            else Ok None) ;;
  note_card <- (a <- get note_card_data "type" (JStr "") ;;
                b <- get note_card_data "displayTitle" (JStr "") ;;
                mk_NoteCard a b user interact_info cover None video) ;;
  a <- get item "id" (JStr "") ;;
  b <- get item "modelType" (JStr "") ;;
  c <- get item "trackId" JNull ;;
  d <- get item "xsecToken" JNull ;;
  mk_Feed a b note_card c d.

Definition _convert_item_to_feed (item : json) : result (option Feed) :=
  try_except (feed <- convert_body item ;; Ok (Some feed))
             (fun e => Ok None).

(** *** The accumulator: [all_feeds] and [seen_ids] *)

Record session := {
  all_feeds : list Feed;
  seen_ids : gset string
}.

Definition new_session : session := {| all_feeds := []; seen_ids := ∅ |}.

(** [if feed.id not in seen_ids: seen_ids.add(feed.id); all_feeds.append(feed)] *)
Definition offer (feed : Feed) (st : session) : session :=
  if decide (feed_id feed ∈ seen_ids st) then st
  else {| all_feeds := all_feeds st ++ [feed];
          seen_ids := {[feed_id feed]} ∪ seen_ids st |}.

Definition offer_all (feeds : list Feed) (st : session) : session :=
  foldl (fun st feed => offer feed st) st feeds.

(** *** [handle_response], the listener *)

Record response := {
  resp_url : string;
  resp_status : Z;
  resp_json : result json   (* what [await response.json()] gives *)
}.

(** [for item in items: feed = ...; if feed and feed.id not in seen_ids: ...]
    The session is returned together with the exception that stopped the
    loop, if any. *)
Fixpoint listener_loop (items : list json) (st : session)
  : session * option exn :=
  match items with
  | [] => (st, None)
  | item :: rest =>
      match _convert_item_to_feed item with
      | Raise e => (st, Some e)
      | Ok (Some feed) => listener_loop rest (offer feed st)
      | Ok None => listener_loop rest st
      end
  end.

(** From [data = await response.json()] to the elements the loop visits;
    [None] when the condition of the [if] is false. *)
Definition response_items (response : response) : result (option (list json)) :=
  data <- resp_json response ;;
  c <- (if truthy data then
          c1 <- contains "data" data ;;
          if c1 : bool then d <- getitem data "data" ;; contains "items" d
          else Ok false
        else Ok false) ;;
  if c : bool then
    d <- getitem data "data" ;;
    items <- getitem d "items" ;;
    _ <- len items ;;
    its <- iter items ;;
    Ok (Some its)
  else Ok None.

Definition search_api_path : string := "/api/sns/web/v1/search/notes".

Definition handle_response (response : response) (st : session) : session :=
  if substring_in search_api_path (resp_url response)
     && (resp_status response =? 200)%Z
  then
    match response_items response with
    | Ok (Some its) => fst (listener_loop its st)
    | Ok None => st
    | Raise _ => st
    end
  else st.

(** *** [_parse_search_results_from_state] *)

(** The [for item in feeds_value] loop with its [try ... except: continue]. *)
Fixpoint parse_loop (items : list json) (feeds : list Feed) : list Feed :=
  match items with
  | [] => feeds
  | item :: rest =>
      match _convert_item_to_feed item with
      | Ok (Some feed) => parse_loop rest (feeds ++ [feed])
      | Ok None => parse_loop rest feeds
      | Raise _ => parse_loop rest feeds
      end
  end.

(** [_save_search_data_to_file] writes three files inside one
    [try ... except Exception] and returns nothing. *)
Definition _save_search_data_to_file (state_data feeds_value : json)
  (feeds : list Feed) : unit := tt.

Definition empty_result : HarvestResult :=
  {| items := []; has_more := false; total := 0 |}.

Section Parse.
(** [json.loads], which is not modelled: the decoding of a text. *)
Variable json_loads : string -> result json.

Definition _parse_search_results_from_state (state_json : string)
  : HarvestResult :=
  match
    (state_data <- json_loads state_json ;;
     search_data <- get state_data "search" empty_dict ;;
     feeds_data <- get search_data "feeds" empty_dict ;;
     feeds_value <- get feeds_data "_value" (JList []) ;;
     n <- len feeds_value ;;
     its <- iter feeds_value ;;
     let feeds := parse_loop its [] in
     let _ := _save_search_data_to_file state_data feeds_value feeds in
     Ok {| items := feeds; has_more := (20 <=? n);
           total := Z.of_nat (length feeds) |})
  with
  | Ok r => r
  | Raise _ => empty_result
  end.
End Parse.

(** *** [_apply_filters] *)

(** [l.remove(x)]: drops the first element equal to [x]. *)
Fixpoint list_remove (x : InternalFilterOption) (l : list InternalFilterOption)
  : list InternalFilterOption :=
  match l with
  | [] => []
  | y :: l' => if decide (y = x) then l' else y :: list_remove x l'
  end.

(** The [for filter_option in internal_filters] loop.  The list iterator
    holds a position [i] into the list, which the body mutates: each round
    reads [internal_filters[i]] from the current list and stops when [i] is
    past its end.  [fuel] bounds the number of rounds. *)
Fixpoint apply_loop (fuel i : nat) (internal_filters : list InternalFilterOption)
  : result (list InternalFilterOption) :=
  match fuel with
  | O => Ok internal_filters
  | S fuel' =>
      match internal_filters !! i with
      | None => Ok internal_filters
      | Some filter_option =>
          if bool_decide (tags_index filter_option ≠ 1%Z) then
            _ <- try_except_ValueError
                   (validate_internal_filter_option filter_option)
                   (fun e => Ok tt) ;;
            apply_loop fuel' (S i) internal_filters
          else
            apply_loop fuel' (S i) (list_remove filter_option internal_filters)
      end
  end.

Definition _apply_filters (filters : FilterOption)
  : result (list InternalFilterOption) :=
  internal_filters <- convert_to_internal_filters filters ;;
  apply_loop (length internal_filters) 0 internal_filters.

(** *** [_make_search_url] *)

Definition hex_digit (n : nat) : ascii :=
  ascii_of_nat (if n <? 10 then 48 + n else 55 + n).

Definition is_unreserved (a : ascii) : bool :=
  let n := nat_of_ascii a in
  ((48 <=? n) && (n <=? 57)) || ((65 <=? n) && (n <=? 90))
  || ((97 <=? n) && (n <=? 122))
  || (n =? 95) || (n =? 46) || (n =? 45) || (n =? 126).

(** [urllib.parse.quote_plus] on the UTF-8 bytes of a [str]. *)
Fixpoint quote_plus (s : string) : string :=
  match s with
  | EmptyString => EmptyString
  | String a s' =>
      let n := nat_of_ascii a in
      if is_unreserved a then String a (quote_plus s')
      else if n =? 32 then String "+" (quote_plus s')
      else String "%" (String (hex_digit (n / 16))
                         (String (hex_digit (n mod 16)) (quote_plus s')))
  end.

Definition urlencode (params : list (string * string)) : string :=
  String.concat "&" ((fun kv => quote_plus kv.1 +:+ "=" +:+ quote_plus kv.2) <$> params).

Definition _make_search_url (keyword : string) : string :=
  let params := [("keyword", keyword); ("source", "web_explore_feed")] in
  "https://www.xiaohongshu.com/search_result?" +:+ urlencode params.

(** *** The browser page *)

Inductive seed :=
  | SeedInt (n : Z)
  | SeedStr (s : string).

(** The JavaScript texts handed to the page. *)
Inductive script :=
  | FilterPanelPresent     (* () => document.querySelector('div.filter-panel') !== null *)
  | InitialStateDefined    (* () => window.__INITIAL_STATE__ !== undefined *)
  | InitialStateJson       (* [initial_state_js] *)
  | ScrollToBottom.        (* window.scrollTo(0, document.body.scrollHeight) *)

(** The awaited calls, on the page and on [AntiBotStrategy]. *)
Inductive action :=
  | Goto (url : string)                          (* page.goto(url, wait_until="networkidle") *)
  | WaitForLoadState                             (* page.wait_for_load_state("networkidle") *)
  | Hover (selector : string)                    (* page.locator(selector).hover() *)
  | WaitForFunction (s : script) (timeout : Z)   (* page.wait_for_function(s, timeout=timeout) *)
  | Click (selector : string)                    (* page.locator(selector).click() *)
  | AddRandomDelay (s : seed)                    (* AntiBotStrategy.add_random_delay(seed=s) *)
  | Evaluate (s : script)                        (* page.evaluate(s) *)
  | WaitForPageStable (timeout : Z).             (* AntiBotStrategy.wait_for_page_stable(page, timeout=timeout) *)

(** What one awaited call does: the responses the page emits while the
    coroutine is suspended, then either an exception or a return value (the
    text that [page.evaluate] returns; unused by the other calls). *)
Record outcome := {
  delivered : list response;
  raised : option exn;
  value : string
}.

(** The environment of one [search]: the outcome of the n-th awaited call,
    and [json.loads]. *)
Record env := {
  page : nat -> outcome;
  json_loads : string -> result json
}.

(** The state of one [search]: the accumulator, whether [handle_response]
    is registered on the page, and the awaited calls made so far. *)
Record world := {
  acc : session;
  listening : bool;
  trace : list action
}.

Definition new_world : world :=
  {| acc := new_session; listening := false; trace := [] |}.

(** A computation either returns, raises, or is still running when the
    bound on the number of scroll rounds is reached. *)
Inductive run (A : Type) :=
  | Returned (a : A)
  | Raised (e : exn)
  | Running.
Arguments Returned {A} a.
Arguments Raised {A} e.
Arguments Running {A}.

Definition M (A : Type) : Type := world -> run A * world.

Definition ret {A} (a : A) : M A := fun w => (Returned a, w).

Definition bindM {A B} (m : M A) (k : A -> M B) : M B :=
  fun w =>
    match m w with
    | (Returned a, w') => k a w'
    | (Raised e, w') => (Raised e, w')
    | (Running, w') => (Running, w')
    end.

Notation "x <~ m ;; k" := (bindM m (fun x => k))
  (at level 100, m at next level, right associativity, only parsing).

Definition lift {A} (r : result A) : M A :=
  fun w => (match r with Ok a => Returned a | Raise e => Raised e end, w).

(** [try: m  except Exception as e: h e] *)
Definition catch {A} (m : M A) (h : exn -> M A) : M A :=
  fun w =>
    match m w with
    | (Raised e, w') => h e w'
    | rw => rw
    end.

(** [try: m  except ValueError as e: h e] *)
Definition catch_ValueError {A} (m : M A) (h : exn -> M A) : M A :=
  fun w =>
    match m w with
    | (Raised e, w') => if is_ValueError e then h e w' else (Raised e, w')
    | rw => rw
    end.

Definition modify_session (f : session -> session) : M unit :=
  fun w => (Returned tt, {| acc := f (acc w); listening := listening w;
                            trace := trace w |}).

Definition deliver (rs : list response) (st : session) : session :=
  foldl (fun st r => handle_response r st) st rs.

(** [await] of a call: the listener, once registered, handles the responses
    emitted meanwhile; then the call returns or raises. *)
Definition await (E : env) (a : action) : M string :=
  fun w =>
    let o := page E (length (trace w)) in
    let w' := {| acc := if listening w then deliver (delivered o) (acc w)
                        else acc w;
                 listening := listening w;
                 trace := trace w ++ [a] |} in
    match raised o with
    | Some e => (Raised e, w')
    | None => (Returned (value o), w')
    end.

(** [self.page.on("response", handle_response)] *)
Definition page_on : M unit :=
  fun w => (Returned tt, {| acc := acc w; listening := true;
                            trace := trace w |}).

(** [self.page.remove_listener("response", handle_response)], inside its
    own [try ... except Exception: pass]. *)
Definition remove_listener (w : world) : world :=
  {| acc := acc w; listening := false; trace := trace w |}.

(** *** [search] *)

Definition click_selector (filter_option : InternalFilterOption) : string :=
  "div.filter-panel div.filters:nth-child("
  +:+ str_int (filters_index filter_option)
  +:+ ") div.tags:nth-child("
  +:+ str_int (tags_index filter_option) +:+ ")".

Fixpoint click_loop (E : env) (internal_filters : list InternalFilterOption)
  : M unit :=
  match internal_filters with
  | [] => ret tt
  | filter_option :: rest =>
      _ <~ await E (Click (click_selector filter_option)) ;;
      _ <~ await E (AddRandomDelay (SeedInt (filters_index filter_option))) ;;
      click_loop E rest
  end.

(** [if filters: try: ... except ValueError as e: return SearchResult(...)];
    [Some r] stands for the early [return r]. *)
Definition filter_stage (E : env) (filters : option FilterOption)
  : M (option SearchResult) :=
  match filters with
  | None => ret None
  | Some f =>
      catch_ValueError
        (internal_filters <~ lift (_apply_filters f) ;;
         _ <~ await E (Hover "div.filter") ;;
         _ <~ await E (WaitForFunction FilterPanelPresent 5000) ;;
         _ <~ click_loop E internal_filters ;;
         ret None)
        (fun e => ret (Some (Failed false (str_exn e) [])))
  end.

(** Step 1, the [__INITIAL_STATE__] pass, inside its
    [try ... except Exception] that only logs. *)
Definition initial_state_stage (E : env) : M unit :=
  catch
    (_ <~ await E (WaitForFunction InitialStateDefined 5000) ;;
     result <~ await E (Evaluate InitialStateJson) ;;
     if negb (String.eqb result "") then
       let initial_result :=
         _parse_search_results_from_state (json_loads E) result in
       modify_session (offer_all (items initial_result))
     else ret tt)
    (fun e => ret tt).

(** Step 2, [while len(all_feeds) < max_items]; [fuel] bounds the number of
    rounds that are run. *)
Fixpoint scroll_loop (E : env) (fuel : nat) (keyword : string) (max_items : Z)
  : M unit :=
  fun w =>
    if (Z.of_nat (length (all_feeds (acc w))) <? max_items)%Z then
      match fuel with
      | O => (Running, w)
      | S fuel' =>
          (_ <~ await E (Evaluate ScrollToBottom) ;;
           _ <~ await E (AddRandomDelay (SeedStr keyword)) ;;
           _ <~ await E WaitForLoadState ;;
           _ <~ await E (WaitForPageStable 8000) ;;
           scroll_loop E fuel' keyword max_items) w
      end
    else (Returned tt, w).

(** [l[:k]] *)
Definition slice_to {A} (l : list A) (k : Z) : list A :=
  if (k <? 0)%Z then take (Z.to_nat (Z.of_nat (length l) + k)) l
  else take (Z.to_nat k) l.

(** The truncation and the [return] of the successful path. *)
Definition finalize (all_feeds : list Feed) (max_items : Z) : SearchResult :=
  let all_feeds :=
    if (max_items <? Z.of_nat (length all_feeds))%Z
    then slice_to all_feeds max_items else all_feeds in
  Harvest {| items := all_feeds; has_more := true;
             total := Z.of_nat (length all_feeds) |}.

(** The body of the outer [try]. *)
Definition search_body (E : env) (fuel : nat) (keyword : string)
    (max_items : Z) (filters : option FilterOption) : M SearchResult :=
  let search_url := _make_search_url keyword in
  _ <~ await E (Goto search_url) ;;
  _ <~ await E WaitForLoadState ;;
  early <~ filter_stage E filters ;;
  match early with
  | Some r => ret r
  | None =>
      _ <~ page_on ;;
      _ <~ await E WaitForLoadState ;;
      _ <~ initial_state_stage E ;;
      _ <~ scroll_loop E fuel keyword max_items ;;
      fun w => (Returned (finalize (all_feeds (acc w)) max_items), w)
  end.

(** The two [except] clauses build the same value. *)
Definition partial_result (w : world) : SearchResult :=
  Harvest {| items := all_feeds (acc w); has_more := false; total := 0 |}.

Definition is_PlaywrightTimeoutError (e : exn) : bool :=
  match exn_cls e with PlaywrightTimeoutError => true | _ => false end.

Definition search (E : env) (fuel : nat) (keyword : string) (max_items : Z)
    (filters : option FilterOption) : run SearchResult * world :=
  let '(r, w) := search_body E fuel keyword max_items filters new_world in
  let r' :=
    match r with
    | Returned x => Returned x
    | Raised e =>
        if is_PlaywrightTimeoutError e then Returned (partial_result w)
        else Returned (partial_result w)
    | Running => Running
    end in
  (r', match r with Running => w | _ => remove_listener w end).

End Search.

Import Py Json Config SearchModel Search.

Set Warnings "-clear-no-such-hyp".

(** ** Vocabulary of the properties *)

(** *** Filter selections *)

(** The field of a selection that feeds group [g]. *)
Definition field (f : FilterOption) (g : Z) : option string :=
  match g with
  | 1 => sort_by f | 2 => note_type f | 3 => publish_time f
  | 4 => search_scope f | 5 => location f | _ => None
  end%Z.

(** The name under which [convert_to_internal_filters] reports group [g]. *)
Definition group_name (g : Z) : string :=
  match g with
  | 1 => "排序依据" | 2 => "笔记类型" | 3 => "发布时间"
  | 4 => "搜索范围" | 5 => "位置距离" | _ => ""
  end%Z.

(** The selection in which only the field of group [g] is set, to [label]. *)
Definition single (g : Z) (label : string) : FilterOption := {|
  sort_by := if (g =? 1)%Z then Some label else None;
  note_type := if (g =? 2)%Z then Some label else None;
  publish_time := if (g =? 3)%Z then Some label else None;
  search_scope := if (g =? 4)%Z then Some label else None;
  location := if (g =? 5)%Z then Some label else None
|}.

(** [label] is one of the labels of group [g] in the static table. *)
Definition label_known (g : Z) (label : string) : bool :=
  match FILTER_OPTIONS_MAP !! g with
  | Some options => existsb (fun o => String.eqb (text o) label) options
  | None => false
  end.

(** The field of group [g] is set (neither [None] nor empty), to a label
    that the table of group [g] does not have. *)
Definition offending (f : FilterOption) (g : Z) : bool :=
  truthy_opt_str (field f g) && negb (label_known g (default "" (field f g))).

Definition entry_ok (en : option string * Z * string) : Prop :=
  (1 ≤ en.1.2 ≤ 5)%Z
  ∧ truthy_opt_str en.1.1 && negb (label_known en.1.2 (default "" en.1.1)) = false.

(** The selectors clicked, in order. *)
Definition clicks (t : list action) : list string :=
  omap (fun a => match a with Click s => Some s | _ => None end) t.

(** *** Accumulated items *)

(** The first-offered item of each distinct id, in first-offer order: an
    item is kept, and every later item with its id is left out. *)
Fixpoint first_offers (l : list Feed) : list Feed :=
  match l with
  | [] => []
  | x :: r => x :: filter (fun y => feed_id y ≠ feed_id x) (first_offers r)
  end.

(** What the normaliser makes of a record, [None] when it gives up. *)
Definition normalize (item : json) : option Feed :=
  match _convert_item_to_feed item with
  | Ok o => o
  | Raise _ => None
  end.

(** All accumulated items are normalised records. *)
Definition from_records (st : session) : Prop :=
  ∀ f, f ∈ all_feeds st → ∃ item, normalize item = Some f.

Definition keeps {A} (m : M A) : Prop :=
  ∀ w r w', m w = (r, w') → from_records (acc w) → from_records (acc w').

(** The items of a result: [items] or, for the failure value, [feeds]. *)
Definition result_items (r : SearchResult) : list Feed :=
  match r with
  | Harvest h => items h
  | Failed _ _ feeds => feeds
  end.

(** The values that the normaliser builds from an empty [noteCard]. *)
Definition default_user : User :=
  {| user_id := ""; nickname := ""; avatar := ""; desc := "";
     gender := None; ip_location := None |}.

Definition default_interact_info : InteractInfo :=
  {| liked := false; liked_count := Str "0"; collected := false;
     collected_count := Str "0"; comment_count := Str "0";
     share_count := Str "0" |}.

Definition default_cover : Cover :=
  {| url := ""; width := 0; height := 0; file_id := "" |}.

Definition default_note_card : NoteCard :=
  {| card_type := ""; display_title := ""; user := default_user;
     interact_info := default_interact_info; cover := default_cover;
     images_list := None; video := None |}.

Definition feed_of_id (s : string) : Feed :=
  {| feed_id := s; model_type := ""; note_card := default_note_card;
     track_id := None; xsec_token := None |}.

(** *** Runs of [search] *)

Definition initial_state_action (a : action) : Prop :=
  a = WaitForFunction InitialStateDefined 5000 ∨ a = Evaluate InitialStateJson.

Definition filter_action (a : action) : Prop :=
  match a with
  | Hover _ | Click _ | WaitForFunction FilterPanelPresent _
  | AddRandomDelay (SeedInt _) => True
  | _ => False
  end.

(** An exception [e] raised by call [a] reaches the [except] clauses at the
    end of [search]: the call is not part of the initial-state pass, and if
    it is part of the filter stage then [e] is not a [ValueError]. *)
Definition escapes (a : action) (e : exn) : Prop :=
  ¬ initial_state_action a ∧ (filter_action a → is_ValueError e = false).

(** A run of [m] only makes calls that satisfy [P], and an escaping
    exception of one of its calls ends the run at that call. *)
Definition spec {A} (E : env) (P : action → Prop) (m : M A) : Prop :=
  ∀ w r w', m w = (r, w') →
    ∃ t, trace w' = trace w ++ t ∧ Forall P t
         ∧ ∀ k a e, t !! k = Some a →
              raised (page E (length (trace w) + k)) = Some e →
              escapes a e → r = Raised e ∧ length t = S k.

(** *** Environments *)

Definition quiet_outcome : outcome :=
  {| delivered := []; raised := None; value := "" |}.

Definition delivering (rs : list response) : outcome :=
  {| delivered := rs; raised := None; value := "" |}.

Definition raising (e : exn) : outcome :=
  {| delivered := []; raised := Some e; value := "" |}.

Definition returning (s : string) : outcome :=
  {| delivered := []; raised := None; value := s |}.

Definition no_json (s : string) : result json :=
  Raise (Exn JSONDecodeError "Expecting value").

(** Nothing happens: no response, no exception, no initial state. *)
Definition quiet : env :=
  {| page := fun _ => quiet_outcome; json_loads := no_json |}.

(** The first calls have the outcomes listed, the later ones are quiet. *)
Definition scripted (l : list outcome) (loads : string → result json) : env :=
  {| page := fun k => default quiet_outcome (l !! k); json_loads := loads |}.

(** A search API response whose body is [{"data": {"items": records}}]. *)
Definition api_response (records : list json) : response :=
  {| resp_url := "https://edith.xiaohongshu.com/api/sns/web/v1/search/notes";
     resp_status := 200;
     resp_json := Ok (JDict [("data", JDict [("items", JList records)])]) |}.

(** An initial state whose [search.feeds._value] is [records]. *)
Definition state_with (records : list json) : json :=
  JDict [("search", JDict [("feeds", JDict [("_value", JList records)])])].

Definition timeout : exn :=
  Exn PlaywrightTimeoutError "Timeout 5000ms exceeded.".

(** The record [{"id": s}]. *)
Definition record_of_id (s : string) : json := JDict [("id", JStr s)].

(** The initial state holds the records [{"id": "a"}] and [{"id": "b"}]. *)
Definition env_two_in_state : env :=
  scripted [quiet_outcome; quiet_outcome; quiet_outcome; quiet_outcome;
            returning "{}"]
           (fun _ => Ok (state_with [record_of_id "a"; record_of_id "b"])).


(** One record arrives through the listener, then the first scroll fails. *)
Definition env_scroll_fails : env :=
  scripted [quiet_outcome; quiet_outcome;
            delivering [api_response [record_of_id "a"]];
            quiet_outcome; quiet_outcome; raising timeout]
           no_json.

(** The initial state holds [a], [b] and [c]; the first scroll brings a
    response with [b], [c], [d] and [e]. *)
Definition env_two_producers : env :=
  scripted [quiet_outcome; quiet_outcome; quiet_outcome; quiet_outcome;
            returning "{}";
            delivering [api_response [record_of_id "b"; record_of_id "c";
                                      record_of_id "d"; record_of_id "e"]]]
           (fun _ => Ok (state_with [record_of_id "a"; record_of_id "b";
                                     record_of_id "c"])).

(** A selection whose sort order is not in the table. *)
Definition unknown_sort : FilterOption := single 1 "不存在".

(** *** The filter translator, entry by entry *)

(** The option that one entry of [mapping] contributes to the translation:
    none when the field is unset. *)
Definition entry_option (en : option string * Z * string)
  : option InternalFilterOption :=
  if truthy_opt_str en.1.1 then
    match find_internal_option en.1.2 (default "" en.1.1) with
    | Ok o => Some o
    | Raise _ => None
    end
  else None.

(** What is left of a list after the loop of [_apply_filters]: an option
    with [tags_index] 1 is removed and the option after it is passed over,
    so it stays whatever its index. *)
Fixpoint after_skips (l : list InternalFilterOption)
  : list InternalFilterOption :=
  match l with
  | [] => []
  | x :: r =>
      if bool_decide (tags_index x ≠ 1%Z) then x :: after_skips r
      else match r with
           | [] => []
           | y :: r' => y :: after_skips r'
           end
  end.

(** The sort order is set, the note type is the empty string. *)
Definition latest_only : FilterOption :=
  {| sort_by := Some "最新"; note_type := Some ""; publish_time := None;
     search_scope := None; location := None |}.

(** The newest first, every other field at its default. *)
Definition latest_and_defaults : FilterOption :=
  {| sort_by := Some "最新"; note_type := Some "不限";
     publish_time := Some "不限"; search_scope := Some "不限";
     location := Some "不限" |}.

(** *** Invariants of the accumulator *)

(** The accumulator is well formed: no two accumulated items have one id,
    and [seen_ids] is the set of the accumulated ids. *)
Definition wf_session (st : session) : Prop :=
  NoDup (feed_id <$> all_feeds st)
  ∧ seen_ids st = list_to_set (feed_id <$> all_feeds st).

(** [st'] extends [st]: the items of [st] come first, and no id is lost. *)
Definition extends (st st' : session) : Prop :=
  all_feeds st `prefix_of` all_feeds st' ∧ seen_ids st ⊆ seen_ids st'.

(** Every run of [m] keeps the property [I] of the accumulator. *)
Definition preserved (I : session → Prop) {A} (m : M A) : Prop :=
  ∀ w r w', m w = (r, w') → I (acc w) → I (acc w').

(** A response with the records [a], [a] and [b]. *)
Definition response_a_a_b : response :=
  api_response [record_of_id "a"; record_of_id "a"; record_of_id "b"].

(** A record whose user has [nickName] only, with a numeric like count and
    no video. *)
Definition record_with_alias : json :=
  JDict [("id", JStr "n1");
         ("noteCard", JDict [("user", JDict [("nickName", JStr "Li")]);
                             ("interactInfo", JDict [("likedCount", JInt 12)])])].

(** *** Reading a search URL back *)

(** The value of a hexadecimal digit, and the inverse of [quote_plus]; they
    serve to show that a quoted text determines the text. *)
Definition unhex (a : ascii) : nat :=
  let n := nat_of_ascii a in if n <? 58 then n - 48 else n - 55.

Fixpoint unquote_plus (s : string) : string :=
  match s with
  | EmptyString => EmptyString
  | String a r =>
      if Ascii.eqb a "+" then String " " (unquote_plus r)
      else if Ascii.eqb a "%" then
        match r with
        | String h1 (String h2 r') =>
            String (ascii_of_nat (16 * unhex h1 + unhex h2)) (unquote_plus r')
        | _ => String a (unquote_plus r)
        end
      else String a (unquote_plus r)
  end.

(** The characters that a search URL can hold besides the unreserved ones. *)
Definition url_delimiter (a : ascii) : bool :=
  bool_decide (a ∈ ["+"; "%"; "="; "&"; ":"; "/"; "?"]%char).

(** *** Calls made before the listener is registered *)

(** Two environments in which every call raises or returns the same, and
    [json.loads] is the same; the responses emitted may differ. *)
Definition same_calls (E E' : env) : Prop :=
  (∀ k, raised (page E k) = raised (page E' k)
        ∧ value (page E k) = value (page E' k))
  ∧ ∀ s, json_loads E s = json_loads E' s.

(** The number of calls that [search] awaits before it registers the
    listener, when none of them raises: two for the navigation, and for a
    selection the hover, the wait for the panel, and a click and a delay
    per applied option. *)
Definition calls_before_listening (filters : option FilterOption) : nat :=
  match filters with
  | None => 2
  | Some f =>
      match _apply_filters f with
      | Ok l => 4 + 2 * length l
      | Raise _ => 2
      end
  end.

(** The calls that apply the options [l]: a click and a delay seeded by the
    group index, per option. *)
Definition filter_calls (l : list InternalFilterOption) : list action :=
  flat_map (fun o => [Click (click_selector o);
                      AddRandomDelay (SeedInt (filters_index o))]) l.

(** What [search] does once the filters are applied. *)
Definition after_filters (E : env) (fuel : nat) (keyword : string)
    (max_items : Z) : M SearchResult :=
  bindM page_on (fun _ =>
  bindM (await E WaitForLoadState) (fun _ =>
  bindM (initial_state_stage E) (fun _ =>
  bindM (scroll_loop E fuel keyword max_items) (fun _ =>
  fun w => (Returned (finalize (all_feeds (acc w)) max_items), w))))).

(** Responses arrive while the page is loaded, before the listener is
    registered, and nothing else happens. *)
Definition env_early_responses : env :=
  scripted [delivering [api_response [record_of_id "a"]];
            delivering [api_response [record_of_id "b"]]]
           no_json.

(** *** The stages of [search] *)







(** ** The filter translator *)

Lemma table_cases g options :
  FILTER_OPTIONS_MAP !! g = Some options ->
  (g, options) ∈ [
    (1%Z, [ opt 1 1 "综合"; opt 1 2 "最新"; opt 1 3 "最多点赞";
            opt 1 4 "最多评论"; opt 1 5 "最多收藏" ]);
    (2%Z, [ opt 2 1 "不限"; opt 2 2 "视频"; opt 2 3 "图文" ]);
    (3%Z, [ opt 3 1 "不限"; opt 3 2 "一天内"; opt 3 3 "一周内";
            opt 3 4 "半年内" ]);
    (4%Z, [ opt 4 1 "不限"; opt 4 2 "已看过"; opt 4 3 "未看过";
            opt 4 4 "已关注" ]);
    (5%Z, [ opt 5 1 "不限"; opt 5 2 "同城"; opt 5 3 "附近" ]) ].
Proof. intros H. by apply elem_of_list_to_map_2 in H. Qed.

Lemma find_none_text (label : string) (options : list InternalFilterOption) :
  (∀ o, o ∈ options → text o ≠ label) →
  List.find (fun o => String.eqb (text o) label) options = None.
Proof.
  induction options as [|o options IH]; intros H; [done|].
  simpl. destruct (String.eqb_spec (text o) label) as [Heq|_].
  - exfalso. eapply H; [left | done].
  - apply IH. intros o' Ho'. apply H. by right.
Qed.

Lemma find_internal_option_unknown g options label :
  FILTER_OPTIONS_MAP !! g = Some options →
  (∀ o, o ∈ options → text o ≠ label) →
  find_internal_option g label = Raise (Exn ValueError (msg_no_text g label)).
Proof.
  intros Hg Hno. unfold find_internal_option. rewrite Hg.
  by rewrite find_none_text.
Qed.

Lemma truthy_nonempty label : label ≠ "" → truthy_opt_str (Some label) = true.
Proof.
  intros H. simpl. by destruct (String.eqb_spec label "").
Qed.

(** C5: translating the selection in which only the field of group [g] is
    set, to a label of that group's table, gives exactly the table's option
    for that label: its [filters_index] is [g], its [tags_index] is the
    option's position in the group, counted from 1, and it passes
    [validate_internal_filter_option], so that [1 <= filters_index <= 5] and
    [1 <= tags_index <= size of the group].  When the field is set to a
    label that the group does not have, translation raises a [ValueError].
    (A field is set when it is neither [None] nor empty: the empty string
    is skipped like [None].) *)
Theorem filter_translation_round_trip (g : Z)
    (options : list InternalFilterOption) (label : string)
    (Hg : FILTER_OPTIONS_MAP !! g = Some options) :
  (∀ i o, options !! i = Some o → text o = label →
     convert_to_internal_filters (single g label) = Ok [o]
     ∧ filters_index o = g ∧ tags_index o = Z.of_nat (S i)
     ∧ validate_internal_filter_option o = Ok tt
     ∧ (1 ≤ filters_index o ≤ 5)%Z
     ∧ (1 ≤ tags_index o ≤ Z.of_nat (length options))%Z)
  ∧ (label ≠ "" → (∀ o, o ∈ options → text o ≠ label) →
     convert_to_internal_filters (single g label)
     = Raise (Exn ValueError
         (group_name g +:+ "错误: " +:+ "在筛选组 " +:+ str_int g
          +:+ " 中未找到文本 '" +:+ label +:+ "'"))).
Proof.
  split.
  - intros i o Hi Hl. apply table_cases in Hg.
    repeat (apply elem_of_cons in Hg as [Hg|Hg]); try by apply elem_of_nil in Hg.
    all: simplify_eq.
    all: do 6 (try destruct i as [|i]); simplify_eq/=.
    all: vm_compute; intuition congruence.
  - intros Hne Hno.
    pose proof (find_internal_option_unknown _ _ _ Hg Hno) as Hf.
    pose proof (truthy_nonempty _ Hne) as Ht.
    apply table_cases in Hg.
    repeat (apply elem_of_cons in Hg as [Hg|Hg]); try by apply elem_of_nil in Hg.
    all: simplify_eq.
    all: unfold convert_to_internal_filters, single, mapping; cbn [Z.eqb Pos.eqb].
    all: cbn [convert_loop sort_by note_type publish_time search_scope location
                truthy_opt_str default from_option];
         fold (truthy_opt_str (Some label)); rewrite Ht;
         cbn -[find_internal_option msg_wrapped]; rewrite Hf; reflexivity.
Qed.

Lemma find_internal_option_spec g label :
  (1 ≤ g ≤ 5)%Z →
  if label_known g label
  then ∃ o, find_internal_option g label = Ok o
  else find_internal_option g label
       = Raise (Exn ValueError (msg_no_text g label)).
Proof.
  intros Hg. unfold label_known, find_internal_option.
  destruct (FILTER_OPTIONS_MAP !! g) as [options|] eqn:Hl.
  - clear Hl. induction options as [|o options IH]; simpl; [done|].
    destruct (String.eqb (text o) label); simpl; [by eexists|]. exact IH.
  - exfalso. assert (g = 1 ∨ g = 2 ∨ g = 3 ∨ g = 4 ∨ g = 5)%Z as Hc by lia.
    destruct Hc as [->|[->|[->|[->| ->]]]]; vm_compute in Hl; discriminate.
Qed.

Lemma convert_loop_first_error pre v g name post acc :
  Forall entry_ok pre → (1 ≤ g ≤ 5)%Z →
  truthy_opt_str v = true → label_known g (default "" v) = false →
  convert_loop (pre ++ (v, g, name) :: post) acc
  = Raise (Exn ValueError
      (msg_wrapped name (Exn ValueError (msg_no_text g (default "" v))))).
Proof.
  intros Hpre Hg Ht Hk. revert acc.
  induction Hpre as [|[[v' g'] name'] pre [Hg' Hok] _ IH]; intros acc.
  - cbn [app convert_loop]. rewrite Ht.
    pose proof (find_internal_option_spec g (default "" v) Hg) as Hf.
    rewrite Hk in Hf. by rewrite Hf.
  - cbn [app convert_loop]. simpl in Hg', Hok.
    destruct (truthy_opt_str v'); [|apply IH].
    pose proof (find_internal_option_spec g' (default "" v') Hg') as Hf.
    simpl in Hok. apply negb_false_iff in Hok. rewrite Hok in Hf.
    destruct Hf as [o ->]. cbn [try_except_ValueError bind]. apply IH.
Qed.

Lemma search_filter_error E fuel keyword max_items f e :
  _apply_filters f = Raise e → is_ValueError e = true →
  raised (page E 0) = None → raised (page E 1) = None →
  search E fuel keyword max_items (Some f)
  = (Returned (Failed false (str_exn e) []),
     {| acc := new_session; listening := false;
        trace := [Goto (_make_search_url keyword); WaitForLoadState] |}).
Proof.
  intros Ha He H0 H1.
  unfold search, search_body, bindM, await, filter_stage, catch_ValueError,
    lift, bindM.
  cbn [new_world trace length app listening acc]. rewrite H0.
  cbn [trace length app listening acc]. rewrite H1, Ha, He. reflexivity.
Qed.

Local Ltac solve_pre :=
  rewrite ?Forall_cons, Forall_nil; split_and?; try exact I;
  match goal with
  | Hok : ∀ g', _ → entry_ok _ |- _ =>
      first [ apply (Hok 1%Z); lia | apply (Hok 2%Z); lia
            | apply (Hok 3%Z); lia | apply (Hok 4%Z); lia ]
  end.

(** C4: when some field of the selection is set to a label that is not in
    its group's table, translation raises a [ValueError] whose message names
    the group and the label (those of the first such field, in group
    order) and returns no list; so does [_apply_filters]; and [search],
    once the navigation to the search page has returned, returns
    [SearchResult(success=False, message=<that message>, feeds=[])] after
    the two navigation calls only: nothing is hovered or clicked. *)
Theorem unknown_label_aborts_search (f : FilterOption) (E : env) (fuel : nat)
    (keyword : string) (max_items : Z)
    (Hbad : ∃ g, (1 ≤ g ≤ 5)%Z ∧ offending f g = true)
    (Hnav : raised (page E 0) = None ∧ raised (page E 1) = None) :
  ∃ g label,
    (1 ≤ g ≤ 5)%Z ∧ field f g = Some label ∧ label ≠ ""
    ∧ label_known g label = false
    ∧ (∀ g', (1 ≤ g' < g)%Z → offending f g' = false)
    ∧ let msg := group_name g +:+ "错误: " +:+ "在筛选组 " +:+ str_int g
                 +:+ " 中未找到文本 '" +:+ label +:+ "'" in
      convert_to_internal_filters f = Raise (Exn ValueError msg)
      ∧ _apply_filters f = Raise (Exn ValueError msg)
      ∧ search E fuel keyword max_items (Some f)
        = (Returned (Failed false msg []),
           {| acc := new_session; listening := false;
              trace := [Goto (_make_search_url keyword); WaitForLoadState] |}).
Proof.
  destruct Hnav as [H0 H1].
  assert (∃ g, (1 ≤ g ≤ 5)%Z ∧ offending f g = true
               ∧ ∀ g', (1 ≤ g' < g)%Z → offending f g' = false)
    as (g & Hg & Hoff & Hfirst).
  { destruct Hbad as (g0 & Hg0 & Hoff0).
    assert (∀ g', (1 ≤ g' < 1)%Z → offending f g' = false) as F1 by (intros; lia).
    destruct (offending f 1) eqn:O1; [exists 1%Z; split_and!; (lia || done)|].
    assert (∀ g', (1 ≤ g' < 2)%Z → offending f g' = false) as F2.
    { intros g' ?. by assert (g' = 1)%Z as -> by lia. }
    destruct (offending f 2) eqn:O2; [exists 2%Z; split_and!; (lia || done)|].
    assert (∀ g', (1 ≤ g' < 3)%Z → offending f g' = false) as F3.
    { intros g' ?. assert (g' = 1 ∨ g' = 2)%Z as [-> | ->] by lia; done. }
    destruct (offending f 3) eqn:O3; [exists 3%Z; split_and!; (lia || done)|].
    assert (∀ g', (1 ≤ g' < 4)%Z → offending f g' = false) as F4.
    { intros g' ?. assert (g' = 1 ∨ g' = 2 ∨ g' = 3)%Z as [-> |[-> | ->]] by lia; done. }
    destruct (offending f 4) eqn:O4; [exists 4%Z; split_and!; (lia || done)|].
    assert (∀ g', (1 ≤ g' < 5)%Z → offending f g' = false) as F5.
    { intros g' ?.
      assert (g' = 1 ∨ g' = 2 ∨ g' = 3 ∨ g' = 4)%Z as [-> |[-> |[-> | ->]]] by lia; done. }
    destruct (offending f 5) eqn:O5; [exists 5%Z; split_and!; (lia || done)|].
    exfalso.
    assert (g0 = 1 ∨ g0 = 2 ∨ g0 = 3 ∨ g0 = 4 ∨ g0 = 5)%Z
      as [-> |[-> |[-> |[-> | ->]]]] by lia; congruence. }
  unfold offending in Hoff. apply andb_true_iff in Hoff as [Ht Hk].
  apply negb_true_iff in Hk.
  destruct (field f g) as [label|] eqn:Hfield; [|discriminate].
  exists g, label.
  split; [exact Hg|]. split; [exact Hfield|].
  split; [intros ->; discriminate|]. split; [exact Hk|].
  split; [exact Hfirst|].
  assert (convert_to_internal_filters f
          = Raise (Exn ValueError
              (msg_wrapped (group_name g)
                 (Exn ValueError (msg_no_text g label))))) as Hconv.
  { assert (∀ g', (1 ≤ g' < g)%Z →
              entry_ok (field f g', g', group_name g')) as Hok.
    { intros g' Hg'. split; [simpl; lia|]. apply (Hfirst g' Hg'). }
    unfold convert_to_internal_filters, mapping.
    assert (g = 1 ∨ g = 2 ∨ g = 3 ∨ g = 4 ∨ g = 5)%Z as Hc by lia.
    destruct Hc as [->|[->|[->|[->| ->]]]]; simpl in Hfield; rewrite Hfield.
    - apply (convert_loop_first_error [] (Some label) 1 _ _ []);
        [|lia|done..]; solve_pre.
    - apply (convert_loop_first_error [_] (Some label) 2 _ _ []);
        [|lia|done..]; solve_pre.
    - apply (convert_loop_first_error [_; _] (Some label) 3 _ _ []);
        [|lia|done..]; solve_pre.
    - apply (convert_loop_first_error [_; _; _] (Some label) 4 _ _ []);
        [|lia|done..]; solve_pre.
    - apply (convert_loop_first_error [_; _; _; _] (Some label) 5 _ _ []);
        [|lia|done..]; solve_pre. }
  assert (_apply_filters f
          = Raise (Exn ValueError
              (msg_wrapped (group_name g)
                 (Exn ValueError (msg_no_text g label))))) as Happ.
  { unfold _apply_filters. by rewrite Hconv. }
  cbv zeta. split_and!.
  - exact Hconv.
  - exact Happ.
  - by rewrite (search_filter_error E fuel keyword max_items f _ Happ).
Qed.

Lemma validate_raises_ValueError o e :
  validate_internal_filter_option o = Raise e → is_ValueError e = true.
Proof.
  unfold validate_internal_filter_option. intros H.
  repeat case_match; by simplify_eq.
Qed.

Lemma list_remove_length x l : length (list_remove x l) ≤ length l.
Proof. induction l as [|y l IH]; simpl; [lia|]. case_decide; simpl; lia. Qed.

Lemma list_remove_sublist x l : list_remove x l `sublist_of` l.
Proof.
  induction l as [|y l IH]; simpl; [constructor|].
  case_decide; [by apply sublist_cons | by apply sublist_skip].
Qed.

Lemma list_remove_other x o l : o ∈ l → o ≠ x → o ∈ list_remove x l.
Proof.
  induction l as [|y l IH]; simpl; [done|]. intros Ho Hne.
  apply elem_of_cons in Ho as [->|Ho].
  - case_decide; [done | by left].
  - case_decide; [done | right; by apply IH].
Qed.

(** Running the loop with more rounds than the list has elements changes
    nothing: [length internal_filters] rounds are enough. *)
Lemma apply_loop_fuel fuel1 fuel2 i l :
  length l ≤ i + fuel1 → length l ≤ i + fuel2 →
  apply_loop fuel1 i l = apply_loop fuel2 i l.
Proof.
  revert fuel2 i l. induction fuel1 as [|fuel1 IH]; intros fuel2 i l H1 H2.
  - simpl. destruct fuel2; [done|]. simpl.
    by rewrite (lookup_ge_None_2 l i) by lia.
  - destruct fuel2 as [|fuel2].
    + simpl. by rewrite (lookup_ge_None_2 l i) by lia.
    + simpl. destruct (l !! i) as [o|]; [|done].
      case_bool_decide.
      * destruct (try_except_ValueError _ _); simpl; [|done]. apply IH; lia.
      * pose proof (list_remove_length o l). apply IH; lia.
Qed.

(** The loop never raises, what it returns is a sub-sequence of the list it
    was given, and every option whose [tags_index] is not 1 is still there. *)
Lemma apply_loop_retains fuel i l :
  ∃ l', apply_loop fuel i l = Ok l' ∧ l' `sublist_of` l
        ∧ ∀ o, o ∈ l → tags_index o ≠ 1%Z → o ∈ l'.
Proof.
  revert i l. induction fuel as [|fuel IH]; intros i l; simpl.
  { by exists l. }
  destruct (l !! i) as [o|] eqn:Hi; [|by exists l].
  case_bool_decide as Hdec.
  - destruct (validate_internal_filter_option o) as [[]|e] eqn:Hv; simpl.
    + apply IH.
    + rewrite (validate_raises_ValueError _ _ Hv). simpl. apply IH.
  - destruct (IH (S i) (list_remove o l)) as (l' & -> & Hsub & Hin).
    exists l'. split; [done|]. split.
    + etrans; [exact Hsub | apply list_remove_sublist].
    + intros o' Ho' Ht. apply Hin; [|done].
      apply list_remove_other; [done|]. intros ->. by apply Ht.
Qed.

(** X5: what [_apply_filters] does keep: it returns a sub-sequence of the
    translated options, in their order, with every option whose
    [tags_index] is not 1. *)
Lemma apply_filters_retains (f : FilterOption)
    (l : list InternalFilterOption)
    (Hconv : convert_to_internal_filters f = Ok l) :
  ∃ l', _apply_filters f = Ok l' ∧ l' `sublist_of` l
        ∧ ∀ o, o ∈ l → tags_index o ≠ 1%Z → o ∈ l'.
Proof. unfold _apply_filters. rewrite Hconv. simpl. apply apply_loop_retains. Qed.

(** A single option with [tags_index] 1 is removed, one with another index
    is kept; after an option that is kept, every second option with
    [tags_index] 1 stays. *)
Example apply_filters_sort_default : _apply_filters (single 1 "综合") = Ok [].
Proof. vm_compute. reflexivity. Qed.

Example apply_filters_sort_latest :
  _apply_filters (single 1 "最新") = Ok [opt 1 2 "最新"].
Proof. vm_compute. reflexivity. Qed.

Example apply_filters_latest_and_defaults :
  _apply_filters {| sort_by := Some "最新"; note_type := Some "不限";
                    publish_time := Some "不限"; search_scope := Some "不限";
                    location := Some "不限" |}
  = Ok [opt 1 2 "最新"; opt 3 1 "不限"; opt 5 1 "不限"].
Proof. vm_compute. reflexivity. Qed.

(** C1: evaluated on the default selection, whose five options all have
    [tags_index] 1, [_apply_filters] removes the options of groups 1, 3 and 5
    only: removing an element while the [for] loop iterates over the same
    list makes the iterator skip the element that follows.  The options of
    groups 2 and 4, with [tags_index] 1, stay in the list and are clicked. *)
Theorem default_selection_clicks_index_one :
  convert_to_internal_filters FilterOption_default
  = Ok [opt 1 1 "综合"; opt 2 1 "不限"; opt 3 1 "不限"; opt 4 1 "不限";
        opt 5 1 "不限"]
  ∧ _apply_filters FilterOption_default
    = Ok [opt 2 1 "不限"; opt 4 1 "不限"]
  ∧ clicks (trace (search quiet 0 "k" 0 (Some FilterOption_default)).2)
    = ["div.filter-panel div.filters:nth-child(2) div.tags:nth-child(1)";
       "div.filter-panel div.filters:nth-child(4) div.tags:nth-child(1)"].
Proof. split_and!; vm_compute; reflexivity. Qed.

(** C10: [FilterOption()] has every field set, to the first label of its
    group, and its translation is five options, one per group in ascending
    group order, each with [tags_index] 1. *)
Theorem default_selection_translation :
  FilterOption_default
  = {| sort_by := Some "综合"; note_type := Some "不限";
       publish_time := Some "不限"; search_scope := Some "不限";
       location := Some "不限" |}
  ∧ Forall (fun g => truthy_opt_str (field FilterOption_default g) = true)
           [1; 2; 3; 4; 5]%Z
  ∧ ∃ l, convert_to_internal_filters FilterOption_default = Ok l
         ∧ filters_index <$> l = [1; 2; 3; 4; 5]%Z
         ∧ tags_index <$> l = [1; 1; 1; 1; 1]%Z
         ∧ text <$> l = ["综合"; "不限"; "不限"; "不限"; "不限"].
Proof.
  split; [reflexivity|]. split; [by repeat constructor|].
  eexists. split; [vm_compute; reflexivity|]. split_and!; reflexivity.
Qed.

(** ** The accumulator and the normaliser *)

Lemma first_offers_filter (Q : Feed → Prop) `{!∀ y, Decision (Q y)} l :
  (∀ y z, feed_id y = feed_id z → Q y → Q z) →
  first_offers (filter Q l) = filter Q (first_offers l).
Proof.
  intros HQ. induction l as [|x r IH]; [done|].
  rewrite filter_cons. destruct (decide (Q x)) as [HP|HP].
  - cbn [first_offers]. rewrite filter_cons_True by done. f_equal.
    rewrite IH, !list_filter_filter. apply list_filter_iff. tauto.
  - cbn [first_offers]. rewrite filter_cons_False by done.
    rewrite IH, list_filter_filter. apply list_filter_iff.
    intros y. split; [|tauto]. intros Hy. split; [done|].
    intros Heq. apply HP. by apply (HQ y).
Qed.

Lemma filter_all {A} (P : A → Prop) `{!∀ x, Decision (P x)} (l : list A) :
  (∀ x, P x) → filter P l = l.
Proof.
  intros HP. induction l as [|x l IH]; [done|].
  rewrite filter_cons_True by done. by rewrite IH.
Qed.

Lemma offer_all_cons x l st : offer_all (x :: l) st = offer_all l (offer x st).
Proof. reflexivity. Qed.

Lemma offer_all_spec l st :
  all_feeds (offer_all l st)
  = all_feeds st ++ first_offers (filter (fun y => feed_id y ∉ seen_ids st) l)
  ∧ seen_ids (offer_all l st) = seen_ids st ∪ list_to_set (feed_id <$> l).
Proof.
  revert st. induction l as [|x r IH]; intros st.
  - simpl. split; [by rewrite app_nil_r | set_solver].
  - rewrite offer_all_cons. destruct (IH (offer x st)) as [IHa IHs].
    rewrite IHa, IHs. unfold offer. rewrite filter_cons.
    destruct (decide (feed_id x ∈ seen_ids st)) as [Hin|Hnin].
    + rewrite decide_False by tauto. split; [done|]. set_solver.
    + rewrite decide_True by done. cbn [all_feeds seen_ids first_offers].
      split; [|set_solver]. rewrite <- app_assoc. cbn [app]. do 2 f_equal.
      etrans; [|apply first_offers_filter; congruence].
      f_equal. rewrite list_filter_filter. apply list_filter_iff.
      intros y. set_solver.
Qed.

Lemma first_offers_sublist l : first_offers l `sublist_of` l.
Proof.
  induction l as [|x r IH]; simpl; [done|]. apply sublist_skip.
  etrans; [apply sublist_filter | exact IH].
Qed.

Lemma first_offers_ids l x :
  x ∈ l → feed_id x ∈ feed_id <$> first_offers l.
Proof.
  induction l as [|y r IH]; [by intros ?%elem_of_nil|].
  intros [->|Hx]%elem_of_cons; cbn [first_offers]; rewrite fmap_cons.
  - by left.
  - destruct (decide (feed_id x = feed_id y)) as [->|Hne]; [by left|].
    right. apply IH in Hx. apply list_elem_of_fmap in Hx as (z & Hz & Hzin).
    apply list_elem_of_fmap. exists z. split; [done|].
    apply list_elem_of_filter. split; [congruence | done].
Qed.

Lemma first_offers_NoDup l : NoDup (feed_id <$> first_offers l).
Proof.
  induction l as [|x r IH]; cbn [first_offers]; [constructor|].
  rewrite fmap_cons. constructor.
  - intros (z & Hz & Hzin)%list_elem_of_fmap.
    apply list_elem_of_filter in Hzin as [Hne _]. congruence.
  - apply (sublist_NoDup _ (feed_id <$> first_offers r)); [exact IH|].
    apply fmap_sublist, sublist_filter.
Qed.

Lemma first_offers_first l y :
  y ∈ first_offers l →
  ∃ i, l !! i = Some y
       ∧ ∀ j z, j < i → l !! j = Some z → feed_id z ≠ feed_id y.
Proof.
  induction l as [|x r IH]; cbn [first_offers]; [by intros ?%elem_of_nil|].
  intros [->|Hy]%elem_of_cons.
  - exists 0. split; [done|]. intros; lia.
  - apply list_elem_of_filter in Hy as [Hne Hy].
    destruct (IH Hy) as (i & Hi & Hfirst). exists (S i). split; [done|].
    intros [|j] z Hj Hz; simplify_eq/=; [congruence|].
    eapply Hfirst; [|done]. lia.
Qed.

(** C6: offering an item whose id was offered before leaves the accumulator
    as it is, and after any sequence of offers the accumulator lists the
    first-offered item of each distinct id, in first-offer order: it is
    [first_offers offered], which has no two items with one id, is a
    sub-sequence of the offers, has every offered id, and holds for each id
    the item that was offered first. *)
Theorem accumulator_first_offer_wins (offered : list Feed) (feed : Feed) :
  let st := offer_all offered new_session in
  (feed_id feed ∈ feed_id <$> offered →
     offer feed st = st
     ∧ length (all_feeds (offer feed st)) = length (all_feeds st))
  ∧ all_feeds st = first_offers offered
  ∧ seen_ids st = list_to_set (feed_id <$> offered)
  ∧ NoDup (feed_id <$> all_feeds st)
  ∧ all_feeds st `sublist_of` offered
  ∧ (∀ x, x ∈ offered → feed_id x ∈ feed_id <$> all_feeds st)
  ∧ (∀ y, y ∈ all_feeds st →
       ∃ i, offered !! i = Some y
            ∧ ∀ j z, j < i → offered !! j = Some z → feed_id z ≠ feed_id y).
Proof.
  intros st. destruct (offer_all_spec offered new_session) as [Ha Hs].
  fold st in Ha, Hs. cbn [new_session all_feeds seen_ids app] in Ha, Hs.
  assert (all_feeds st = first_offers offered) as Hall.
  { rewrite Ha. f_equal. apply filter_all. set_solver. }
  assert (seen_ids st = list_to_set (feed_id <$> offered)) as Hseen.
  { rewrite Hs. set_solver. }
  split_and!.
  - intros Hin. assert (offer feed st = st) as ->; [|done].
    unfold offer. rewrite decide_True; [done|]. rewrite Hseen. set_solver.
  - exact Hall.
  - exact Hseen.
  - rewrite Hall. apply first_offers_NoDup.
  - rewrite Hall. apply first_offers_sublist.
  - rewrite Hall. apply first_offers_ids.
  - rewrite Hall. apply first_offers_first.
Qed.

Lemma bind_Ok {A B} (m : result A) (k : A → result B) b :
  bind m k = Ok b → ∃ a, m = Ok a ∧ k a = Ok b.
Proof. destruct m as [a|e]; simpl; [by exists a | discriminate]. Qed.

Lemma convert_never_raises item : ∃ o, _convert_item_to_feed item = Ok o.
Proof.
  unfold _convert_item_to_feed.
  destruct (convert_body item) as [feed|e]; simpl; by eexists.
Qed.

Lemma normalize_spec item :
  _convert_item_to_feed item = Ok (normalize item).
Proof.
  unfold normalize. by destruct (convert_never_raises item) as [o ->].
Qed.

Lemma normalize_Some item f :
  normalize item = Some f ↔ convert_body item = Ok f.
Proof.
  unfold normalize, _convert_item_to_feed.
  destruct (convert_body item); simpl; split; congruence.
Qed.

Lemma v_str_Ok v s : v_str v = Ok s → v = JStr s.
Proof. destruct v; simpl; unfold invalid; congruence. Qed.

Lemma normalize_id item f :
  normalize item = Some f → get item "id" (JStr "") = Ok (JStr (feed_id f)).
Proof.
  rewrite normalize_Some. unfold convert_body. intros H.
  repeat (apply bind_Ok in H as (? & ? & H)).
  injection H as <-. cbn [feed_id].
  match goal with
  | Hg : get item "id" _ = Ok ?a, Hv : v_str ?a = Ok ?s |- _ = Ok (JStr ?s) =>
      apply v_str_Ok in Hv; rewrite Hv in Hg; exact Hg
  end.
Qed.

Lemma listener_loop_offer_all items st :
  listener_loop items st = (offer_all (omap normalize items) st, None).
Proof.
  revert st. induction items as [|item rest IH]; intros st; [done|].
  cbn [listener_loop omap list_omap]. rewrite normalize_spec.
  destruct (normalize item) as [feed|]; apply IH.
Qed.

Lemma parse_loop_omap items feeds :
  parse_loop items feeds = feeds ++ omap normalize items.
Proof.
  revert feeds. induction items as [|item rest IH]; intros feeds.
  - simpl. by rewrite app_nil_r.
  - cbn [parse_loop omap list_omap]. rewrite normalize_spec.
    destruct (normalize item) as [feed|]; rewrite IH; [|done].
    by rewrite <- app_assoc.
Qed.

Lemma offer_all_elem feeds st f :
  f ∈ all_feeds (offer_all feeds st) → f ∈ all_feeds st ∨ f ∈ feeds.
Proof.
  revert st. induction feeds as [|x feeds IH]; intros st; [by left|].
  rewrite offer_all_cons. intros [Hf|Hf]%IH; [|right; by right].
  unfold offer in Hf. case_decide; [by left|].
  cbn [all_feeds] in Hf. apply elem_of_app in Hf as [Hf|Hf]; [by left|].
  apply list_elem_of_singleton in Hf as ->. right; by left.
Qed.

Lemma handle_response_elem resp st f :
  f ∈ all_feeds (handle_response resp st) →
  f ∈ all_feeds st ∨ ∃ item, normalize item = Some f.
Proof.
  unfold handle_response. intros Hf.
  destruct (_ && _); [|by left].
  destruct (response_items resp) as [[its|]|e]; [|by left..].
  rewrite listener_loop_offer_all in Hf. cbn [fst] in Hf.
  apply offer_all_elem in Hf as [Hf|Hf]; [by left|]. right.
  apply list_elem_of_omap in Hf as (item & _ & Hitem). by exists item.
Qed.

Lemma parse_items_elem loads text f :
  f ∈ items (_parse_search_results_from_state loads text) →
  ∃ item, normalize item = Some f.
Proof.
  unfold _parse_search_results_from_state.
  destruct (loads text) as [state_data|]; cbn [bind];
    [|by intros ?%elem_of_nil].
  repeat (match goal with
          | |- context [bind ?m _] =>
              destruct m; cbn [bind]; [|by intros ?%elem_of_nil]
          end).
  cbn [items]. rewrite parse_loop_omap. cbn [app].
  intros (item & _ & Hitem)%list_elem_of_omap. by exists item.
Qed.

(** A record without the [noteCard] key. *)
Lemma convert_without_note_card kvs :
  assoc "noteCard" kvs = None →
  _convert_item_to_feed (JDict kvs)
  = match mk_Feed (default (JStr "") (assoc "id" kvs))
                  (default (JStr "") (assoc "modelType" kvs))
                  default_note_card
                  (default JNull (assoc "trackId" kvs))
                  (default JNull (assoc "xsecToken" kvs)) with
    | Ok feed => Ok (Some feed)
    | Raise _ => Ok None
    end.
Proof.
  intros Hnc. unfold _convert_item_to_feed, convert_body.
  cbn [get]. rewrite Hnc. cbn -[mk_Feed].
  by destruct (mk_Feed _ _ _ _ _).
Qed.

(** ** Runs of [search] *)

Section Runs.
Variable E : env.

Lemma spec_weaken {A} (P Q : action → Prop) (m : M A) :
  (∀ a, P a → Q a) → spec E P m → spec E Q m.
Proof.
  intros HPQ Hm w r w' Hrun. destruct (Hm _ _ _ Hrun) as (t & Ht & HP & Hk).
  exists t. split_and!; [done| |done]. eapply Forall_impl; eauto.
Qed.

Lemma spec_silent {A} P (m : M A) :
  (∀ w r w', m w = (r, w') → trace w' = trace w) → spec E P m.
Proof.
  intros Hm w r w' Hrun. exists []. rewrite app_nil_r.
  split_and!; [by eapply Hm | by apply Forall_nil |].
  intros k a e Hk. by rewrite lookup_nil in Hk.
Qed.

Lemma spec_ret {A} P (a : A) : spec E P (ret a).
Proof. apply spec_silent. by intros w r w' [= _ <-]. Qed.


Lemma spec_modify P f : spec E P (modify_session f).
Proof. apply spec_silent. by intros w r w' [= _ <-]. Qed.

Lemma spec_page_on P : spec E P page_on.
Proof. apply spec_silent. by intros w r w' [= _ <-]. Qed.

Lemma spec_await (P : action → Prop) a : P a → spec E P (await E a).
Proof.
  intros HP w r w' Hrun. exists [a]. unfold await in Hrun.
  split_and!.
  - destruct (raised _); by simplify_eq.
  - by repeat constructor.
  - intros [|k] a' e Hk He Hesc; simplify_eq/=.
    rewrite Nat.add_0_r in He. rewrite He in Hrun. by simplify_eq.
Qed.

Lemma spec_bind {A B} P (m : M A) (k : A → M B) :
  spec E P m → (∀ a, spec E P (k a)) → spec E P (bindM m k).
Proof.
  intros Hm Hk w r w' Hrun. unfold bindM in Hrun.
  destruct (m w) as [r1 w1] eqn:Hm1.
  destruct (Hm _ _ _ Hm1) as (t1 & Ht1 & HP1 & H1).
  destruct r1 as [a|e|]; simplify_eq.
  - destruct (Hk a _ _ _ Hrun) as (t2 & Ht2 & HP2 & H2).
    exists (t1 ++ t2). split_and!.
    + by rewrite Ht2, Ht1, app_assoc.
    + by apply Forall_app.
    + intros j a' e Hj He Hesc.
      destruct (decide (j < length t1)) as [Hlt|Hge].
      * rewrite lookup_app_l in Hj by done.
        by destruct (H1 _ _ _ Hj He Hesc).
      * rewrite lookup_app_r in Hj by lia.
        destruct (H2 (j - length t1) a' e Hj) as [-> Hlen]; [|done|].
        { rewrite Ht1, length_app.
          by replace (length (trace w) + length t1 + (j - length t1))
            with (length (trace w) + j) by lia. }
        split; [done|]. rewrite length_app. lia.
  - exists t1. split_and!; [done..|]. intros j a' e' Hj He Hesc.
    by destruct (H1 _ _ _ Hj He Hesc) as [[= ->] ?].
  - exists t1. split_and!; [done..|]. intros j a' e' Hj He Hesc.
    by destruct (H1 _ _ _ Hj He Hesc).
Qed.

Lemma spec_catch_initial {A} (m : M A) (x : A) :
  spec E initial_state_action m →
  spec E initial_state_action (catch m (fun _ => ret x)).
Proof.
  intros Hm w r w' Hrun. unfold catch, ret in Hrun.
  destruct (m w) as [r1 w1] eqn:Hm1.
  destruct (Hm _ _ _ Hm1) as (t1 & Ht1 & HP1 & H1).
  exists t1. assert (trace w' = trace w ++ t1) as Ht.
  { destruct r1; by simplify_eq. }
  split_and!; [done..|]. intros k a e Hk _ [Hni _]. exfalso. apply Hni.
  eapply Forall_lookup_1; eauto.
Qed.




Lemma spec_initial_state_stage :
  spec E (fun _ => True) (initial_state_stage E).
Proof.
  apply (spec_weaken initial_state_action); [done|].
  apply spec_catch_initial.
  apply spec_bind; [apply spec_await; by left|]. intros _.
  apply spec_bind; [apply spec_await; by right|]. intros result.
  destruct (negb _); [apply spec_modify | apply spec_ret].
Qed.

Lemma spec_scroll_loop fuel keyword max_items :
  spec E (fun _ => True) (scroll_loop E fuel keyword max_items).
Proof.
  induction fuel as [|fuel IH]; intros w r w' Hrun;
    cbn [scroll_loop] in Hrun; destruct (_ <? _)%Z.
  - injection Hrun as <- <-. exists []. rewrite app_nil_r.
    split_and!; [done | by apply Forall_nil |].
    intros k a e Hk. by rewrite lookup_nil in Hk.
  - by apply (spec_ret _ tt w).
  - revert Hrun. apply spec_bind; [by apply spec_await|]. intros _.
    apply spec_bind; [by apply spec_await|]. intros _.
    apply spec_bind; [by apply spec_await|]. intros _.
    apply spec_bind; [by apply spec_await|]. intros _. exact IH.
  - by apply (spec_ret _ tt w).
Qed.

End Runs.


























Lemma bindM_Returned {A B} (m : M A) (k : A → M B) w b w' :
  bindM m k w = (Returned b, w') →
  ∃ a w1, m w = (Returned a, w1) ∧ k a w1 = (Returned b, w').
Proof.
  unfold bindM. destruct (m w) as [[a|e|] w1]; intros H; simplify_eq.
  by exists a, w1.
Qed.

Lemma await_quiet E a w :
  raised (page E (length (trace w))) = None →
  (listening w = true →
   deliver (delivered (page E (length (trace w)))) (acc w) = acc w) →
  await E a w
  = (Returned (value (page E (length (trace w)))),
     {| acc := acc w; listening := listening w; trace := trace w ++ [a] |}).
Proof.
  intros Hr Hd. unfold await. rewrite Hr. do 2 f_equal.
  destruct (listening w); [by apply Hd | done].
Qed.

Lemma scroll_loop_returns E fuel keyword max_items w w' :
  scroll_loop E fuel keyword max_items w = (Returned tt, w') →
  (max_items ≤ Z.of_nat (length (all_feeds (acc w'))))%Z.
Proof.
  revert w. induction fuel as [|fuel IH]; intros w Hrun;
    cbn [scroll_loop] in Hrun;
    destruct (_ <? _)%Z eqn:Hlt; try (simplify_eq; lia).
  do 4 (apply bindM_Returned in Hrun as (? & ? & _ & Hrun)).
  by eapply IH.
Qed.

Lemma scroll_loop_keeps_running E fuel keyword max_items w :
  (Z.of_nat (length (all_feeds (acc w))) < max_items)%Z →
  (∀ k, length (trace w) ≤ k →
     raised (page E k) = None
     ∧ (listening w = true →
        deliver (delivered (page E k)) (acc w) = acc w)) →
  ∃ w', scroll_loop E fuel keyword max_items w = (Running, w')
        ∧ acc w' = acc w
        ∧ length (trace w') = length (trace w) + 4 * fuel.
Proof.
  revert w. induction fuel as [|fuel IH]; intros w Hlt Hquiet;
    cbn [scroll_loop]; rewrite (proj2 (Z.ltb_lt _ _) Hlt).
  { exists w. split_and!; [done..|lia]. }
  unfold bindM at 1. rewrite await_quiet by (apply Hquiet; lia).
  unfold bindM at 1. rewrite await_quiet;
    cbn [trace acc listening]; [|apply Hquiet; rewrite length_app; lia..].
  unfold bindM at 1. rewrite await_quiet;
    cbn [trace acc listening];
    [|apply Hquiet; rewrite !length_app; lia..].
  unfold bindM at 1. rewrite await_quiet;
    cbn [trace acc listening];
    [|apply Hquiet; rewrite !length_app; lia..].
  match goal with
  | |- context [scroll_loop E fuel keyword max_items ?w1] =>
      destruct (IH w1) as (w' & Hrun & Hacc & Hlen)
  end.
  - exact Hlt.
  - cbn [trace acc listening]. intros k Hk. apply Hquiet.
    rewrite !length_app in Hk. lia.
  - exists w'. split_and!; [done..|]. rewrite Hlen. cbn [trace].
    rewrite !length_app. simpl. lia.
Qed.

(** C9: the scroll loop returns only when the accumulated count has reached
    [max_items]; and in a run where the count is below [max_items], no call
    raises and no response changes the accumulator, the loop is still
    running after any number of rounds, with the accumulator unchanged and
    four more calls made per round. *)
Theorem scroll_loop_exits_only_on_count (E : env) (fuel : nat)
    (keyword : string) (max_items : Z) (w : world) :
  (∀ w', scroll_loop E fuel keyword max_items w = (Returned tt, w') →
     (max_items ≤ Z.of_nat (length (all_feeds (acc w'))))%Z)
  ∧ ((Z.of_nat (length (all_feeds (acc w))) < max_items)%Z →
     (∀ k, length (trace w) ≤ k →
        raised (page E k) = None
        ∧ (listening w = true →
           deliver (delivered (page E k)) (acc w) = acc w)) →
     ∃ w', scroll_loop E fuel keyword max_items w = (Running, w')
           ∧ acc w' = acc w
           ∧ length (trace w') = length (trace w) + 4 * fuel).
Proof.
  split.
  - intros w'. apply scroll_loop_returns.
  - apply scroll_loop_keeps_running.
Qed.

(** X17: the same for [search] as a whole: without filters, when no call raises,
    no response brings an item and the page has no initial state, a search
    for at least one item is still running after any number of rounds. *)
Lemma search_keeps_running E fuel keyword max_items :
  (0 < max_items)%Z →
  (∀ k, raised (page E k) = None
        ∧ deliver (delivered (page E k)) new_session = new_session) →
  value (page E 4) = "" →
  ∃ w, search E fuel keyword max_items None = (Running, w)
       ∧ all_feeds (acc w) = []
       ∧ length (trace w) = 5 + 4 * fuel.
Proof.
  intros Hmax Hquiet Hvalue.
  assert (∀ a w, acc w = new_session →
            await E a w
            = (Returned (value (page E (length (trace w)))),
               {| acc := new_session; listening := listening w;
                  trace := trace w ++ [a] |})) as Hawait.
  { intros a w Hacc. rewrite await_quiet; rewrite ?Hacc; [done|..];
      intros; apply Hquiet. }
  unfold search, search_body, filter_stage, initial_state_stage, catch, bindM,
    ret, page_on.
  repeat (rewrite Hawait by done;
          cbn [acc listening trace new_world app length]).
  rewrite Hvalue. cbn [String.eqb negb].
  match goal with
  | |- context [scroll_loop E fuel keyword max_items ?w1] =>
      destruct (scroll_loop_keeps_running E fuel keyword max_items w1)
        as (w' & Hrun & Hacc & Hlen)
  end.
  - simpl. lia.
  - intros k _. split; [apply Hquiet|]. intros _. apply Hquiet.
  - rewrite Hrun. exists w'.
    split; [done|]. rewrite Hacc, Hlen. split; [done|]. simpl. lia.
Qed.

Lemma click_loop_Returned E l w x w' :
  click_loop E l w = (Returned x, w') → x = tt.
Proof. by destruct x. Qed.

Lemma filter_stage_Returned E filters w x w' :
  filter_stage E filters w = (Returned (Some x), w') →
  ∃ msg, x = Failed false msg [].
Proof.
  destruct filters as [f|]; cbn [filter_stage]; [|by intros [= ]].
  unfold catch_ValueError.
  destruct (bindM _ _ w) as [[o|e|] w1] eqn:Hbody; intros H.
  - do 4 (apply bindM_Returned in Hbody as (? & ? & _ & Hbody)).
    unfold ret in Hbody. by simplify_eq.
  - destruct (is_ValueError e); unfold ret in H; simplify_eq. by eexists.
  - by simplify_eq.
Qed.

Lemma search_body_Returned E fuel keyword max_items filters w x w' :
  search_body E fuel keyword max_items filters w = (Returned x, w') →
  (∃ msg, x = Failed false msg [])
  ∨ x = finalize (all_feeds (acc w')) max_items.
Proof.
  unfold search_body. intros H.
  do 2 (apply bindM_Returned in H as (? & ? & _ & H)).
  apply bindM_Returned in H as ([early|] & ? & Hf & H).
  - left. unfold ret in H. injection H as <- <-.
    by eapply filter_stage_Returned.
  - right. do 4 (apply bindM_Returned in H as (? & ? & _ & H)).
    by simplify_eq.
Qed.

Lemma finalize_nonneg l max_items :
  (0 ≤ max_items)%Z →
  finalize l max_items
  = Harvest {| items := take (Z.to_nat max_items) l; has_more := true;
               total := Z.of_nat (length (take (Z.to_nat max_items) l)) |}.
Proof.
  intros H0. unfold finalize, slice_to.
  destruct (_ <? _)%Z eqn:Hlt.
  - by rewrite (proj2 (Z.ltb_ge _ _) H0).
  - by rewrite take_ge by lia.
Qed.

(** For [max_items >= 0], the successful path returns the first
    [min(len, max_items)] accumulated items, and their number as [total]. *)
Lemma truncation_keeps_prefix (E : env) (fuel : nat) (keyword : string)
    (max_items : Z) (filters : option FilterOption)
    (r : HarvestResult) (w : world)
    (Hmax : (0 ≤ max_items)%Z)
    (Hrun : search E fuel keyword max_items filters = (Returned (Harvest r), w))
    (Hok : has_more r = true) :
  let accumulated := all_feeds (acc w) in
  items r
  = take (Z.to_nat (Z.min (Z.of_nat (length accumulated)) max_items)) accumulated
  ∧ total r = Z.of_nat (length (items r))
  ∧ ((Z.of_nat (length accumulated) ≤ max_items)%Z → items r = accumulated).
Proof.
  unfold search in Hrun.
  destruct (search_body _ _ _ _ _ _) as [[x|e|] w1] eqn:Hbody.
  - injection Hrun as -> <-.
    apply search_body_Returned in Hbody as [[msg [= ]]|Hfin].
    rewrite finalize_nonneg in Hfin by done. injection Hfin as ->.
    cbn [remove_listener acc items total].
    split_and!.
    + destruct (Z.min_spec (Z.of_nat (length (all_feeds (acc w1)))) max_items)
        as [[Hlt ->]|[Hge ->]]; [|done].
      by rewrite Nat2Z.id, firstn_all, take_ge by lia.
    + done.
    + intros Hle. by rewrite take_ge by lia.
  - destruct (is_PlaywrightTimeoutError e); simplify_eq; by simplify_eq/=.
  - by simplify_eq.
Qed.

Lemma keeps_same {A} (m : M A) :
  (∀ w r w', m w = (r, w') → acc w' = acc w) → keeps m.
Proof. intros Hm w r w' Hrun HI. by rewrite (Hm _ _ _ Hrun). Qed.

Lemma keeps_bind {A B} (m : M A) (k : A → M B) :
  keeps m → (∀ a, keeps (k a)) → keeps (bindM m k).
Proof.
  intros Hm Hk w r w' Hrun HI. unfold bindM in Hrun.
  destruct (m w) as [[a|e|] w1] eqn:Hm1; simplify_eq.
  - eapply Hk; [done|]. by eapply Hm.
  - by eapply Hm.
  - by eapply Hm.
Qed.

Lemma keeps_catch {A} (m : M A) (h : exn → M A) :
  keeps m → (∀ e, keeps (h e)) → keeps (catch m h).
Proof.
  intros Hm Hh w r w' Hrun HI. unfold catch in Hrun.
  destruct (m w) as [[a|e|] w1] eqn:Hm1; simplify_eq.
  - by eapply Hm.
  - eapply Hh; [done|]. by eapply Hm.
  - by eapply Hm.
Qed.

Lemma keeps_catch_ValueError {A} (m : M A) (h : exn → M A) :
  keeps m → (∀ e, keeps (h e)) → keeps (catch_ValueError m h).
Proof.
  intros Hm Hh w r w' Hrun HI. unfold catch_ValueError in Hrun.
  destruct (m w) as [[a|e|] w1] eqn:Hm1; simplify_eq.
  - by eapply Hm.
  - destruct (is_ValueError e); simplify_eq.
    + eapply Hh; [done|]. by eapply Hm.
    + by eapply Hm.
  - by eapply Hm.
Qed.

Lemma keeps_ret {A} (a : A) : keeps (ret a).
Proof. apply keeps_same. by intros w r w' [= _ <-]. Qed.

Lemma keeps_lift {A} (x : result A) : keeps (lift x).
Proof. apply keeps_same. by intros w r w' [= _ <-]. Qed.

Lemma keeps_page_on : keeps page_on.
Proof. apply keeps_same. by intros w r w' [= _ <-]. Qed.

Lemma deliver_from_records rs st :
  from_records st → from_records (deliver rs st).
Proof.
  revert st. induction rs as [|resp rs IH]; intros st HI; [done|].
  apply IH. intros f [Hf|Hf]%handle_response_elem; [by apply HI | done].
Qed.

Lemma keeps_await E a : keeps (await E a).
Proof.
  intros w r w' Hrun HI. unfold await in Hrun.
  assert (acc w' = if listening w
                   then deliver (delivered (page E (length (trace w)))) (acc w)
                   else acc w) as ->.
  { destruct (raised _); by simplify_eq. }
  destruct (listening w); [by apply deliver_from_records | done].
Qed.

Lemma keeps_offer_parsed loads text :
  keeps (modify_session
           (offer_all (items (_parse_search_results_from_state loads text)))).
Proof.
  intros w r w' [= _ <-] HI. cbn [acc].
  intros f [Hf|Hf]%offer_all_elem; [by apply HI|].
  by eapply parse_items_elem.
Qed.

Lemma keeps_click_loop E l : keeps (click_loop E l).
Proof.
  induction l as [|o l IH]; cbn [click_loop]; [apply keeps_ret|].
  repeat (apply keeps_bind; [apply keeps_await|]; intros _). exact IH.
Qed.

Lemma keeps_search_body E fuel keyword max_items filters :
  keeps (search_body E fuel keyword max_items filters).
Proof.
  unfold search_body.
  repeat (apply keeps_bind; [apply keeps_await|]; intros _).
  apply keeps_bind.
  { destruct filters as [f|]; cbn [filter_stage]; [|apply keeps_ret].
    apply keeps_catch_ValueError; [|intros; apply keeps_ret].
    apply keeps_bind; [apply keeps_lift|]. intros l.
    repeat (apply keeps_bind; [apply keeps_await|]; intros _).
    apply keeps_bind; [apply keeps_click_loop|]. intros _. apply keeps_ret. }
  intros [x|]; [apply keeps_ret|].
  apply keeps_bind; [apply keeps_page_on|]. intros _.
  apply keeps_bind; [apply keeps_await|]. intros _.
  apply keeps_bind.
  { apply keeps_catch; [|intros; apply keeps_ret].
    apply keeps_bind; [apply keeps_await|]. intros _.
    apply keeps_bind; [apply keeps_await|]. intros result.
    destruct (negb _); [apply keeps_offer_parsed | apply keeps_ret]. }
  intros _. apply keeps_bind.
  { induction fuel as [|fuel IH]; intros w r w' Hrun;
      cbn [scroll_loop] in Hrun; destruct (_ <? _)%Z;
      try (by injection Hrun as <- <-).
    revert Hrun.
    repeat (apply keeps_bind; [apply keeps_await|]; intros _). exact IH. }
  intros _. apply keeps_same. by intros w r w' [= _ <-].
Qed.

Lemma slice_to_sublist {A} (l : list A) k : slice_to l k `sublist_of` l.
Proof. unfold slice_to. destruct (_ <? _)%Z; apply sublist_take. Qed.

Lemma search_items_from_records E fuel keyword max_items filters r w f :
  search E fuel keyword max_items filters = (Returned r, w) →
  f ∈ result_items r → ∃ item, normalize item = Some f.
Proof.
  unfold search.
  destruct (search_body _ _ _ _ _ _) as [r1 w1] eqn:Hbody.
  assert (from_records (acc w1)) as HI.
  { eapply keeps_search_body; [done|]. by intros ? ?%elem_of_nil. }
  intros Hrun Hf. destruct r1 as [x|e|]; [| |by simplify_eq].
  - injection Hrun as -> <-.
    apply search_body_Returned in Hbody as [[msg ->]| ->].
    + by apply elem_of_nil in Hf.
    + apply HI. cbn in Hf. destruct (_ <? _)%Z; [|done].
      eapply elem_of_submseteq; [done|].
      apply sublist_submseteq, slice_to_sublist.
  - apply HI. destruct (is_PlaywrightTimeoutError e); by simplify_eq.
Qed.

(** ** The remaining properties of the normaliser and of [search] *)

Lemma convert_not_dict item :
  (∀ kvs, item ≠ JDict kvs) → _convert_item_to_feed item = Ok None.
Proof.
  intros H. unfold _convert_item_to_feed, convert_body.
  destruct item; try reflexivity. by destruct (H kvs).
Qed.

(** C3, as amended: the normaliser never raises; it returns [None] for a
    record that is not an object; for an object without the [noteCard] key
    it does not return [None] but builds the item from an empty [noteCard]:
    the card has its default values, and the result is [None] only when one
    of [id], [modelType], [trackId], [xsecToken] fails validation; the item
    of the record [{"id": s}] is offered to the accumulator. *)
Theorem normalizer_never_raises (item : json) :
  (∃ o, _convert_item_to_feed item = Ok o)
  ∧ ((∀ kvs, item ≠ JDict kvs) → _convert_item_to_feed item = Ok None)
  ∧ (∀ kvs, item = JDict kvs → assoc "noteCard" kvs = None →
       _convert_item_to_feed item
       = match mk_Feed (default (JStr "") (assoc "id" kvs))
                       (default (JStr "") (assoc "modelType" kvs))
                       default_note_card
                       (default JNull (assoc "trackId" kvs))
                       (default JNull (assoc "xsecToken" kvs)) with
         | Ok feed => Ok (Some feed)
         | Raise _ => Ok None
         end)
  ∧ (∀ s, item = record_of_id s →
       _convert_item_to_feed item = Ok (Some (feed_of_id s))
       ∧ ∀ rest st, listener_loop (item :: rest) st
                    = listener_loop rest (offer (feed_of_id s) st)).
Proof.
  split_and!.
  - apply convert_never_raises.
  - apply convert_not_dict.
  - intros kvs -> Hnc. by apply convert_without_note_card.
  - intros s ->.
    assert (_convert_item_to_feed (record_of_id s) = Ok (Some (feed_of_id s)))
      as H by reflexivity.
    split; [exact H|]. intros rest st. cbn [listener_loop]. by rewrite H.
Qed.

Lemma normalizer_never_raises_witness :
  (∃ o, _convert_item_to_feed (record_of_id "a") = Ok o)
  ∧ _convert_item_to_feed (JStr "x") = Ok None
  ∧ _convert_item_to_feed (record_of_id "a") = Ok (Some (feed_of_id "a"))
  ∧ listener_loop [record_of_id "a"] new_session
    = listener_loop [] (offer (feed_of_id "a") new_session).
Proof.
  split; [exact (proj1 (normalizer_never_raises (record_of_id "a")))|].
  split.
  { apply (proj1 (proj2 (normalizer_never_raises (JStr "x")))).
    intros kvs. discriminate. }
  destruct (proj2 (proj2 (proj2 (normalizer_never_raises (record_of_id "a"))))
              "a" eq_refl) as [H1 H2].
  split; [exact H1 | exact (H2 [] new_session)].
Defined.

(** C3 fails: the record [{"id": "a"}], which has no [noteCard], is
    normalised to an item, not to [None], and the listener accumulates it. *)
Lemma record_without_note_card_is_kept :
  assoc "noteCard" [("id", JStr "a")] = None
  ∧ _convert_item_to_feed (record_of_id "a") = Ok (Some (feed_of_id "a"))
  ∧ _convert_item_to_feed (record_of_id "a") ≠ Ok None
  ∧ all_feeds (handle_response (api_response [record_of_id "a"]) new_session)
    = [feed_of_id "a"].
Proof. split_and!; [reflexivity..|discriminate|vm_compute; reflexivity]. Qed.

(** C7: with [max_items = -1] and two accumulated items, the scroll loop is
    skipped and [all_feeds[:max_items]] drops the last item only: [search]
    returns one item, where the first [min(2, -1)] items are none. *)
Theorem negative_max_items_drops_from_the_end :
  ∃ w, search env_two_in_state 0 "k" (-1) None
       = (Returned (Harvest {| items := [feed_of_id "a"]; has_more := true;
                               total := 1 |}), w)
       ∧ all_feeds (acc w) = [feed_of_id "a"; feed_of_id "b"]
       ∧ take (Z.to_nat (Z.min (Z.of_nat (length (all_feeds (acc w)))) (-1)))
              (all_feeds (acc w)) = [].
Proof. eexists. split_and!; vm_compute; reflexivity. Qed.


(** ** The properties at concrete inputs *)

Example search_url :
  _make_search_url "a b综"
  = "https://www.xiaohongshu.com/search_result?keyword=a+b%E7%BB%BC&source=web_explore_feed".
Proof. vm_compute. reflexivity. Qed.

(** Three items from the initial state and four from the listener, two of
    them seen before, give five distinct items for [max_items = 5]. *)
Example search_two_producers :
  (search env_two_producers 1 "k" 5 None).1
  = Returned (Harvest {| items := [feed_of_id "a"; feed_of_id "b";
                                   feed_of_id "c"; feed_of_id "d";
                                   feed_of_id "e"];
                         has_more := true; total := 5 |}).
Proof. vm_compute. reflexivity. Qed.

Lemma filter_translation_round_trip_witness :
  FILTER_OPTIONS_MAP !! 1%Z
  = Some [opt 1 1 "综合"; opt 1 2 "最新"; opt 1 3 "最多点赞";
          opt 1 4 "最多评论"; opt 1 5 "最多收藏"]
  ∧ convert_to_internal_filters (single 1 "最新") = Ok [opt 1 2 "最新"]
  ∧ validate_internal_filter_option (opt 1 2 "最新") = Ok tt
  ∧ convert_to_internal_filters (single 1 "不存在")
    = Raise (Exn ValueError "排序依据错误: 在筛选组 1 中未找到文本 '不存在'").
Proof.
  assert (FILTER_OPTIONS_MAP !! 1%Z
          = Some [opt 1 1 "综合"; opt 1 2 "最新"; opt 1 3 "最多点赞";
                  opt 1 4 "最多评论"; opt 1 5 "最多收藏"]) as Hg
    by (vm_compute; reflexivity).
  split; [exact Hg|].
  destruct (proj1 (filter_translation_round_trip 1 _ "最新" Hg)
              1 (opt 1 2 "最新") eq_refl eq_refl) as (Hc & _ & _ & Hv & _).
  split; [exact Hc|]. split; [exact Hv|].
  apply (proj2 (filter_translation_round_trip 1 _ "不存在" Hg)).
  - discriminate.
  - intros o Ho. rewrite !elem_of_cons in Ho.
    destruct Ho as [->|[->|[->|[->|[->|Ho]]]]];
      [discriminate..|by apply elem_of_nil in Ho].
Defined.

Lemma unknown_label_aborts_search_witness :
  (∃ g, (1 ≤ g ≤ 5)%Z ∧ offending unknown_sort g = true)
  ∧ (raised (page quiet 0) = None ∧ raised (page quiet 1) = None)
  ∧ convert_to_internal_filters unknown_sort
    = Raise (Exn ValueError "排序依据错误: 在筛选组 1 中未找到文本 '不存在'")
  ∧ search quiet 0 "k" 50 (Some unknown_sort)
    = (Returned (Failed false "排序依据错误: 在筛选组 1 中未找到文本 '不存在'" []),
       {| acc := new_session; listening := false;
          trace := [Goto (_make_search_url "k"); WaitForLoadState] |}).
Proof.
  assert (∃ g, (1 ≤ g ≤ 5)%Z ∧ offending unknown_sort g = true) as Hbad.
  { exists 1%Z. split; [lia | reflexivity]. }
  assert (raised (page quiet 0) = None ∧ raised (page quiet 1) = None) as Hnav.
  { split; reflexivity. }
  split; [exact Hbad|]. split; [exact Hnav|].
  destruct (unknown_label_aborts_search unknown_sort quiet 0 "k" 50 Hbad Hnav)
    as (g & label & Hg & Hfield & _ & _ & Hfirst & Hconv & _ & Hsearch).
  assert (g = 1%Z) as ->.
  { destruct (decide (g = 1%Z)) as [|Hne]; [done|].
    assert (offending unknown_sort 1 = false) as H1 by (apply Hfirst; lia).
    discriminate H1. }
  injection Hfield as <-. split; [exact Hconv | exact Hsearch].
Defined.

Lemma accumulator_first_offer_wins_witness :
  let offered := [feed_of_id "a"; feed_of_id "b"; feed_of_id "a"] in
  feed_id (feed_of_id "b") ∈ feed_id <$> offered
  ∧ offer (feed_of_id "b") (offer_all offered new_session)
    = offer_all offered new_session
  ∧ all_feeds (offer_all offered new_session) = [feed_of_id "a"; feed_of_id "b"].
Proof.
  intros offered.
  assert (feed_id (feed_of_id "b") ∈ feed_id <$> offered) as Hin.
  { right. left. }
  destruct (accumulator_first_offer_wins offered (feed_of_id "b"))
    as (Hsame & Hall & _).
  split; [exact Hin|]. split; [exact (proj1 (Hsame Hin)) | exact Hall].
Defined.


Lemma scroll_loop_exits_only_on_count_witness :
  (Z.of_nat (length (all_feeds (acc new_world))) < 1)%Z
  ∧ (∃ w', scroll_loop quiet 3 "k" 1 new_world = (Running, w')
           ∧ acc w' = acc new_world
           ∧ length (trace w') = length (trace new_world) + 4 * 3).
Proof.
  assert (Z.of_nat (length (all_feeds (acc new_world))) < 1)%Z as Hlt
    by (simpl; lia).
  split; [exact Hlt|].
  apply (proj2 (scroll_loop_exits_only_on_count quiet 3 "k" 1 new_world) Hlt).
  intros k _. split; reflexivity.
Defined.

(** ** More on the filter translator *)

Lemma table_lookup_None g : ¬ (1 ≤ g ≤ 5)%Z → FILTER_OPTIONS_MAP !! g = None.
Proof.
  intros Hg. apply not_elem_of_list_to_map_1. cbn [fmap list_fmap fst].
  rewrite !elem_of_cons, elem_of_nil. lia.
Qed.

Lemma find_Some_text label options o :
  List.find (fun o => String.eqb (text o) label) options = Some o →
  o ∈ options ∧ text o = label.
Proof.
  intros [Hin Heq]%find_some. split; [by apply list_elem_of_In|].
  by apply String.eqb_eq.
Qed.

Lemma find_internal_option_Ok_inv g label o :
  find_internal_option g label = Ok o →
  ∃ options, FILTER_OPTIONS_MAP !! g = Some options
             ∧ o ∈ options ∧ text o = label.
Proof.
  unfold find_internal_option.
  destruct (FILTER_OPTIONS_MAP !! g) as [options|]; [|discriminate].
  destruct (List.find _ _) as [o'|] eqn:Hf; [|discriminate].
  intros [= <-]. exists options. split; [done|]. by eapply find_Some_text.
Qed.

Lemma find_internal_option_of_table g label options o :
  FILTER_OPTIONS_MAP !! g = Some options → o ∈ options → text o = label →
  find_internal_option g label = Ok o ∧ filters_index o = g
  ∧ validate_internal_filter_option o = Ok tt.
Proof.
  intros Hg Ho <-. apply table_cases in Hg.
  repeat (apply elem_of_cons in Hg as [Hg|Hg]);
    try by apply elem_of_nil in Hg.
  all: simplify_eq.
  all: repeat (apply elem_of_cons in Ho as [->|Ho]);
    try by apply elem_of_nil in Ho.
  all: vm_compute; by split_and!.
Qed.

Lemma find_internal_option_Ok_valid g label o :
  find_internal_option g label = Ok o →
  filters_index o = g ∧ validate_internal_filter_option o = Ok tt.
Proof.
  intros Hf. destruct (find_internal_option_Ok_inv _ _ _ Hf)
    as (options & Hg & Ho & Hl).
  by destruct (find_internal_option_of_table _ _ _ _ Hg Ho Hl) as (_ & ? & ?).
Qed.

(** X1: [find_internal_option g label] returns an option exactly when that
    option is an entry of group [g] of [FILTER_OPTIONS_MAP] whose text is
    [label]; the option returned has [filters_index = g] and is accepted by
    [validate_internal_filter_option]; for a group index outside 1..5 the
    call raises the [ValueError] that says the group does not exist. *)
Theorem find_internal_option_table (g : Z) (label : string) :
  (∀ o, find_internal_option g label = Ok o ↔
        ∃ options, FILTER_OPTIONS_MAP !! g = Some options
                   ∧ o ∈ options ∧ text o = label)
  ∧ (∀ o, find_internal_option g label = Ok o →
          filters_index o = g
          ∧ validate_internal_filter_option o = Ok tt)
  ∧ (¬ (1 ≤ g ≤ 5)%Z →
     find_internal_option g label
     = Raise (Exn ValueError ("筛选组 " +:+ str_int g +:+ " 不存在"))).
Proof.
  split_and!.
  - intros o. split; [apply find_internal_option_Ok_inv|].
    intros (options & Hg & Ho & Hl).
    by destruct (find_internal_option_of_table _ _ _ _ Hg Ho Hl).
  - apply find_internal_option_Ok_valid.
  - intros Hg. unfold find_internal_option.
    by rewrite (table_lookup_None _ Hg).
Qed.

(** X2: [validate_internal_filter_option] accepts an option exactly when
    its pair of [filters_index] and [tags_index] is the pair of an entry of
    the table, whatever its text; what it raises otherwise is a
    [ValueError]. *)
Theorem validate_accepts_table_index_pairs (filter_opt : InternalFilterOption) :
  (validate_internal_filter_option filter_opt = Ok tt ↔
   ∃ options o, FILTER_OPTIONS_MAP !! filters_index filter_opt = Some options
                ∧ o ∈ options ∧ tags_index o = tags_index filter_opt)
  ∧ (validate_internal_filter_option filter_opt = Ok tt
     ∨ ∃ msg, validate_internal_filter_option filter_opt
              = Raise (Exn ValueError msg)).
Proof.
  destruct filter_opt as [g t s]. cbn [filters_index tags_index]. split.
  - split.
    + unfold validate_internal_filter_option. cbn [filters_index tags_index].
      case_bool_decide as Hg; [discriminate|].
      destruct (FILTER_OPTIONS_MAP !! g) as [options|] eqn:Hl; [|discriminate].
      case_bool_decide as Ht; [discriminate|]. intros _.
      exists options. apply table_cases in Hl as Hc.
      assert (∃ i, options !! i = Some (opt g t (default "" (text <$> options !! i)))
                   ∧ Z.of_nat (S i) = t) as (i & Hi & _).
      { exists (Z.to_nat (t - 1)).
        repeat (apply elem_of_cons in Hc as [Hc|Hc]);
          try by apply elem_of_nil in Hc.
        all: simplify_eq; cbn [length] in Ht.
        all: assert (t = 1 ∨ t = 2 ∨ t = 3 ∨ t = 4 ∨ t = 5)%Z as Hcases by lia.
        all: destruct Hcases as [->|[->|[->|[->| ->]]]];
          first [by vm_compute | exfalso; lia]. }
      eexists. split; [done|]. split; [by eapply list_elem_of_lookup_2|done].
    + intros (options & o & Hl & Ho & Ht). apply table_cases in Hl.
      repeat (apply elem_of_cons in Hl as [Hl|Hl]);
        try by apply elem_of_nil in Hl.
      all: simplify_eq.
      all: repeat (apply elem_of_cons in Ho as [->|Ho]);
        try by apply elem_of_nil in Ho.
      all: reflexivity.
  - unfold validate_internal_filter_option.
    repeat case_match; eauto.
Qed.

Lemma convert_loop_Ok m acc l :
  convert_loop m acc = Ok l → l = acc ++ omap entry_option m.
Proof.
  revert acc. induction m as [|[[v g] name] m IH]; intros acc; cbn [convert_loop].
  - intros [= <-]. by rewrite app_nil_r.
  - cbn [omap list_omap]. unfold entry_option at 1. cbn [fst snd].
    destruct (truthy_opt_str v); [|apply IH].
    destruct (find_internal_option g (default "" v)) as [o|e];
      cbn [try_except_ValueError bind].
    + intros ->%IH. by rewrite <- app_assoc.
    + by destruct (is_ValueError e).
Qed.

Lemma convert_loop_total m acc :
  Forall (fun en => truthy_opt_str en.1.1 = true →
                    is_Some (entry_option en)) m →
  ∃ l, convert_loop m acc = Ok l.
Proof.
  intros Hm. revert acc.
  induction Hm as [|[[v g] name] m Hen _ IH]; intros acc; cbn [convert_loop].
  - by eexists.
  - unfold entry_option in Hen. cbn [fst snd] in Hen.
    destruct (truthy_opt_str v); [|apply IH].
    destruct (find_internal_option g (default "" v)) as [o|e];
      [apply IH|]. by destruct (Hen eq_refl).
Qed.

Lemma entry_option_index m :
  (filters_index <$> omap entry_option m) `sublist_of` m.*1.*2.
Proof.
  induction m as [|[[v g] name] m IH]; [done|].
  cbn [omap list_omap fmap list_fmap fst snd]. unfold entry_option at 1.
  cbn [fst snd]. destruct (truthy_opt_str v); [|by apply sublist_cons].
  destruct (find_internal_option g (default "" v)) as [o|e] eqn:Hf;
    [|by apply sublist_cons].
  cbn [fmap list_fmap].
  destruct (find_internal_option_Ok_valid _ _ _ Hf) as [-> _].
  by apply sublist_skip.
Qed.

Lemma convert_loop_Ok_entries m acc l :
  convert_loop m acc = Ok l →
  Forall (fun en => truthy_opt_str en.1.1 = true → is_Some (entry_option en)) m.
Proof.
  revert acc. induction m as [|[[v g] name] m IH]; intros acc; cbn [convert_loop];
    [by constructor|].
  intros H. unfold entry_option at 1.
  destruct (truthy_opt_str v) eqn:Ht.
  - destruct (find_internal_option g (default "" v)) as [o|e] eqn:Hf;
      cbn [try_except_ValueError bind] in H; [|by destruct (is_ValueError e)].
    constructor; [|by eapply IH]. unfold entry_option. cbn [fst snd].
    rewrite Ht, Hf. by eexists.
  - constructor; [|by eapply IH]. cbn [fst snd]. by rewrite Ht.
Qed.

Lemma entry_option_valid m :
  Forall (fun o => validate_internal_filter_option o = Ok tt)
         (omap entry_option m).
Proof.
  apply Forall_forall. intros o (en & _ & Hen)%list_elem_of_omap.
  unfold entry_option in Hen. destruct (truthy_opt_str _); [|discriminate].
  destruct (find_internal_option _ _) as [o'|] eqn:Hf; [|discriminate].
  injection Hen as ->. by destruct (find_internal_option_Ok_valid _ _ _ Hf).
Qed.

Lemma mapping_entries f en :
  en ∈ mapping f ↔ ∃ g, (1 ≤ g ≤ 5)%Z ∧ en = (field f g, g, group_name g).
Proof.
  unfold mapping. rewrite !elem_of_cons, elem_of_nil. split.
  - intros [->|[->|[->|[->|[->|[]]]]]];
      [exists 1%Z|exists 2%Z|exists 3%Z|exists 4%Z|exists 5%Z]; by split; [lia|].
  - intros (g & Hg & ->).
    assert (g = 1 ∨ g = 2 ∨ g = 3 ∨ g = 4 ∨ g = 5)%Z
      as [->|[->|[->|[->| ->]]]] by lia; cbn; tauto.
Qed.

Lemma truthy_opt_str_Some v :
  truthy_opt_str v = true ↔ ∃ label, v = Some label ∧ label ≠ "".
Proof.
  destruct v as [s|]; simpl.
  - destruct (String.eqb_spec s ""); simpl; split.
    + discriminate.
    + intros (? & [= <-] & ?). done.
    + intros _. by exists s.
    + done.
  - split; [discriminate|]. by intros (? & ? & ?).
Qed.

Lemma entry_option_offending f g :
  (1 ≤ g ≤ 5)%Z →
  offending f g = false ↔
  (truthy_opt_str (field f g) = true →
   is_Some (entry_option (field f g, g, group_name g))).
Proof.
  intros Hg. unfold offending, entry_option. cbn [fst snd].
  destruct (truthy_opt_str (field f g)); cbn [andb]; [|by split].
  pose proof (find_internal_option_spec g (default "" (field f g)) Hg) as Hs.
  destruct (label_known g _); cbn [negb].
  - destruct Hs as [o ->]. split; [by eexists|done].
  - rewrite Hs. split; [done|]. intros H. by destruct (H eq_refl).
Qed.

(** X3: [convert_to_internal_filters] returns a list exactly when no set
    field holds a label that its group does not have.  The list it returns
    holds exactly the table options of the set (non-empty) fields, at most
    one per group and in ascending group order, and every one of them is
    accepted by [validate_internal_filter_option]. *)
Theorem convert_translates_set_fields (f : FilterOption) :
  ((∃ l, convert_to_internal_filters f = Ok l) ↔
   ∀ g, (1 ≤ g ≤ 5)%Z → offending f g = false)
  ∧ ∀ l, convert_to_internal_filters f = Ok l →
      (∀ o, o ∈ l ↔
            ∃ g label, (1 ≤ g ≤ 5)%Z ∧ field f g = Some label ∧ label ≠ ""
                       ∧ find_internal_option g label = Ok o)
      ∧ (filters_index <$> l) `sublist_of` [1; 2; 3; 4; 5]%Z
      ∧ Forall (fun o => validate_internal_filter_option o = Ok tt) l.
Proof.
  unfold convert_to_internal_filters. split.
  - split.
    + intros [l Hl] g Hg. apply entry_option_offending; [done|].
      apply convert_loop_Ok_entries in Hl.
      rewrite Forall_forall in Hl.
      apply (Hl (field f g, g, group_name g)). apply mapping_entries. eauto.
    + intros Hok. apply convert_loop_total. apply Forall_forall.
      intros en (g & Hg & ->)%mapping_entries.
      by apply entry_option_offending; [|apply Hok].
  - intros l ->%convert_loop_Ok. cbn [app]. split_and!.
    + intros o. rewrite list_elem_of_omap. split.
      * intros (en & (g & Hg & ->)%mapping_entries & Hen).
        unfold entry_option in Hen. cbn [fst snd] in Hen.
        destruct (truthy_opt_str (field f g)) eqn:Ht; [|discriminate].
        apply truthy_opt_str_Some in Ht as (label & Hfield & Hne).
        rewrite Hfield in Hen. cbn in Hen.
        destruct (find_internal_option g label) as [o'|] eqn:Hf; [|discriminate].
        injection Hen as ->. by exists g, label.
      * intros (g & label & Hg & Hfield & Hne & Hf).
        exists (field f g, g, group_name g). split; [apply mapping_entries; eauto|].
        unfold entry_option. cbn [fst snd].
        rewrite (proj2 (truthy_opt_str_Some _)) by eauto.
        rewrite Hfield. cbn. by rewrite Hf.
    + apply (entry_option_index (mapping f)).
    + apply entry_option_valid.
Qed.

Lemma apply_loop_past_end fuel i l :
  length l ≤ i → apply_loop fuel i l = Ok l.
Proof.
  intros Hi. destruct fuel; [done|]. simpl.
  by rewrite (lookup_ge_None_2 l i).
Qed.

Lemma list_remove_middle x pre r :
  x ∉ pre → list_remove x (pre ++ x :: r) = pre ++ r.
Proof.
  induction pre as [|y pre IH]; intros Hx; simpl.
  - by rewrite decide_True.
  - rewrite decide_False by set_solver. f_equal. apply IH. set_solver.
Qed.

Lemma apply_loop_after_skips fuel pre l :
  NoDup (pre ++ l) → length l ≤ fuel →
  apply_loop fuel (length pre) (pre ++ l) = Ok (pre ++ after_skips l).
Proof.
  revert pre l. induction fuel as [|fuel IH]; intros pre l Hnd Hlen.
  - destruct l; [done | simpl in Hlen; lia].
  - destruct l as [|x r].
    { apply apply_loop_past_end. rewrite length_app. simpl. lia. }
    cbn [apply_loop after_skips]. rewrite list_lookup_middle by done.
    case_bool_decide as Hx.
    + assert (try_except_ValueError (validate_internal_filter_option x)
                (fun _ => Ok tt) = Ok tt) as ->.
      { destruct (validate_internal_filter_option x) as [[]|e] eqn:Hv; [done|].
        simpl. by rewrite (validate_raises_ValueError _ _ Hv). }
      cbn [bind].
      replace (S (length pre)) with (length (pre ++ [x]))
        by (rewrite length_app; simpl; lia).
      replace (pre ++ x :: r) with ((pre ++ [x]) ++ r) in *
        by (by rewrite <- app_assoc).
      rewrite IH; [by rewrite <- app_assoc|done|simpl in Hlen; lia].
    + rewrite list_remove_middle.
      2:{ apply NoDup_app in Hnd as (_ & Hnd & _). intros Hin.
          apply (Hnd _ Hin). by left. }
      assert (NoDup (pre ++ r)) as Hnd'.
      { apply (sublist_NoDup (pre ++ r) (pre ++ x :: r)); [exact Hnd|].
        apply sublist_app; [done|by apply sublist_cons]. }
      destruct r as [|y r'].
      { apply apply_loop_past_end. rewrite length_app. simpl. lia. }
      replace (S (length pre)) with (length (pre ++ [y]))
        by (rewrite length_app; simpl; lia).
      replace (pre ++ y :: r') with ((pre ++ [y]) ++ r') in *
        by (by rewrite <- app_assoc).
      rewrite IH; [by rewrite <- app_assoc|done|simpl in Hlen; lia].
Qed.

Lemma convert_NoDup f l :
  convert_to_internal_filters f = Ok l → NoDup l.
Proof.
  intros ->%convert_loop_Ok. cbn [app].
  apply (NoDup_fmap_1 filters_index).
  apply (sublist_NoDup _ [1; 2; 3; 4; 5]%Z);
    [|apply (entry_option_index (mapping f))].
  repeat (constructor; [set_solver|]). constructor.
Qed.

(** X4: what [_apply_filters] returns is [after_skips] of the translation:
    an option with [tags_index] 1 is removed, and the option that follows a
    removed one is passed over by the loop, so it stays in the list with
    whatever index it has.  The same holds for the loop on any list without
    repetition. *)
Theorem apply_filters_skips_after_removal (f : FilterOption)
    (l : list InternalFilterOption)
    (Hconv : convert_to_internal_filters f = Ok l) :
  _apply_filters f = Ok (after_skips l)
  ∧ (∀ l0, NoDup l0 → apply_loop (length l0) 0 l0 = Ok (after_skips l0)).
Proof.
  split.
  - unfold _apply_filters. rewrite Hconv. cbn [bind].
    apply (apply_loop_after_skips _ [] l); [|done].
    by eapply convert_NoDup.
  - intros l0 Hnd. by apply (apply_loop_after_skips _ [] l0).
Qed.

(** ** Invariants of the accumulator *)

Section Preservation.
Variable I : session → Prop.
Hypothesis I_offer : ∀ f st, I st → I (offer f st).

Lemma offer_all_preserves fs st : I st → I (offer_all fs st).
Proof.
  revert st. induction fs as [|f fs IH]; intros st HI; [done|].
  rewrite offer_all_cons. by apply IH, I_offer.
Qed.

Lemma handle_response_preserves resp st : I st → I (handle_response resp st).
Proof.
  intros HI. unfold handle_response. destruct (_ && _); [|done].
  destruct (response_items resp) as [[its|]|e]; [|done..].
  rewrite listener_loop_offer_all. by apply offer_all_preserves.
Qed.

Lemma deliver_preserves rs st : I st → I (deliver rs st).
Proof.
  revert st. induction rs as [|resp rs IH]; intros st HI; [done|].
  by apply IH, handle_response_preserves.
Qed.

Lemma preserved_same {A} (m : M A) :
  (∀ w r w', m w = (r, w') → acc w' = acc w) → preserved I m.
Proof. intros Hm w r w' Hrun HI. by rewrite (Hm _ _ _ Hrun). Qed.

Lemma preserved_bind {A B} (m : M A) (k : A → M B) :
  preserved I m → (∀ a, preserved I (k a)) → preserved I (bindM m k).
Proof.
  intros Hm Hk w r w' Hrun HI. unfold bindM in Hrun.
  destruct (m w) as [[a|e|] w1] eqn:Hm1; simplify_eq.
  - eapply Hk; [done|]. by eapply Hm.
  - by eapply Hm.
  - by eapply Hm.
Qed.

Lemma preserved_catch {A} (m : M A) (h : exn → M A) :
  preserved I m → (∀ e, preserved I (h e)) → preserved I (catch m h).
Proof.
  intros Hm Hh w r w' Hrun HI. unfold catch in Hrun.
  destruct (m w) as [[a|e|] w1] eqn:Hm1; simplify_eq.
  - by eapply Hm.
  - eapply Hh; [done|]. by eapply Hm.
  - by eapply Hm.
Qed.

Lemma preserved_catch_ValueError {A} (m : M A) (h : exn → M A) :
  preserved I m → (∀ e, preserved I (h e)) →
  preserved I (catch_ValueError m h).
Proof.
  intros Hm Hh w r w' Hrun HI. unfold catch_ValueError in Hrun.
  destruct (m w) as [[a|e|] w1] eqn:Hm1; simplify_eq.
  - by eapply Hm.
  - destruct (is_ValueError e); simplify_eq.
    + eapply Hh; [done|]. by eapply Hm.
    + by eapply Hm.
  - by eapply Hm.
Qed.

Lemma preserved_ret {A} (a : A) : preserved I (ret a).
Proof. apply preserved_same. by intros w r w' [= _ <-]. Qed.

Lemma preserved_lift {A} (x : result A) : preserved I (lift x).
Proof. apply preserved_same. by intros w r w' [= _ <-]. Qed.

Lemma preserved_page_on : preserved I page_on.
Proof. apply preserved_same. by intros w r w' [= _ <-]. Qed.

Lemma preserved_await E a : preserved I (await E a).
Proof.
  intros w r w' Hrun HI. unfold await in Hrun.
  assert (acc w' = if listening w
                   then deliver (delivered (page E (length (trace w)))) (acc w)
                   else acc w) as ->.
  { destruct (raised _); by simplify_eq. }
  destruct (listening w); [by apply deliver_preserves | done].
Qed.

Lemma preserved_offer_all fs : preserved I (modify_session (offer_all fs)).
Proof. intros w r w' [= _ <-] HI. by apply offer_all_preserves. Qed.

Lemma preserved_click_loop E l : preserved I (click_loop E l).
Proof.
  induction l as [|o l IH]; cbn [click_loop]; [apply preserved_ret|].
  repeat (apply preserved_bind; [apply preserved_await|]; intros _). exact IH.
Qed.

Lemma preserved_scroll_loop E fuel keyword max_items :
  preserved I (scroll_loop E fuel keyword max_items).
Proof.
  induction fuel as [|fuel IH]; intros w r w' Hrun;
    cbn [scroll_loop] in Hrun; destruct (_ <? _)%Z;
    try (by injection Hrun as <- <-).
  revert Hrun.
  repeat (apply preserved_bind; [apply preserved_await|]; intros _). exact IH.
Qed.

Lemma preserved_search_body E fuel keyword max_items filters :
  preserved I (search_body E fuel keyword max_items filters).
Proof.
  unfold search_body.
  repeat (apply preserved_bind; [apply preserved_await|]; intros _).
  apply preserved_bind.
  { destruct filters as [f|]; cbn [filter_stage]; [|apply preserved_ret].
    apply preserved_catch_ValueError; [|intros; apply preserved_ret].
    apply preserved_bind; [apply preserved_lift|]. intros l.
    repeat (apply preserved_bind; [apply preserved_await|]; intros _).
    apply preserved_bind; [apply preserved_click_loop|]. intros _.
    apply preserved_ret. }
  intros [x|]; [apply preserved_ret|].
  apply preserved_bind; [apply preserved_page_on|]. intros _.
  apply preserved_bind; [apply preserved_await|]. intros _.
  apply preserved_bind.
  { apply preserved_catch; [|intros; apply preserved_ret].
    apply preserved_bind; [apply preserved_await|]. intros _.
    apply preserved_bind; [apply preserved_await|]. intros result.
    destruct (negb _); [apply preserved_offer_all | apply preserved_ret]. }
  intros _. apply preserved_bind; [apply preserved_scroll_loop|].
  intros _. apply preserved_same. by intros w r w' [= _ <-].
Qed.
End Preservation.

Lemma wf_session_new : wf_session new_session.
Proof. split; [constructor | set_solver]. Qed.

Lemma wf_session_offer f st : wf_session st → wf_session (offer f st).
Proof.
  intros [Hnd Hseen]. unfold offer. case_decide as Hin; [done|].
  split; cbn [all_feeds seen_ids]; rewrite fmap_app; cbn [fmap list_fmap].
  - apply NoDup_app. split_and!; [done| |apply NoDup_singleton].
    intros x Hx ->%list_elem_of_singleton. apply Hin. rewrite Hseen.
    by apply elem_of_list_to_set.
  - rewrite Hseen, list_to_set_app_L. set_solver.
Qed.

Lemma extends_refl st : extends st st.
Proof. split; [done | set_solver]. Qed.

Lemma extends_offer st0 f st : extends st0 st → extends st0 (offer f st).
Proof.
  intros [Hp Hs]. unfold offer. case_decide; [done|].
  split; cbn [all_feeds seen_ids].
  - by apply prefix_app_r.
  - set_solver.
Qed.

(** X6: one call of the listener only appends: the items accumulated
    before come first in [all_feeds] and no id leaves [seen_ids]; it keeps
    the accumulator well formed (no id twice in [all_feeds], and [seen_ids]
    the set of the accumulated ids); and handling the same response a second
    time changes nothing. *)
Theorem handle_response_keeps_accumulator (resp : response) (st : session) :
  extends st (handle_response resp st)
  ∧ (wf_session st → wf_session (handle_response resp st))
  ∧ handle_response resp (handle_response resp st) = handle_response resp st.
Proof.
  split_and!.
  - apply (handle_response_preserves (extends st)); [|apply extends_refl].
    intros. by apply extends_offer.
  - apply handle_response_preserves. apply wf_session_offer.
  - unfold handle_response. destruct (_ && _); [|done].
    destruct (response_items resp) as [[its|]|e]; [|done..].
    rewrite !listener_loop_offer_all. cbn [fst].
    generalize (omap normalize its). intros fs.
    assert (∀ fs' st', (∀ f, f ∈ fs' → feed_id f ∈ seen_ids st') →
                       offer_all fs' st' = st') as Hsame.
    { induction fs' as [|f fs' IH]; intros st' Hin; [done|].
      rewrite offer_all_cons. unfold offer at 1.
      rewrite decide_True by (apply Hin; by left).
      apply IH. intros; apply Hin. by right. }
    apply Hsame. intros f Hf.
    rewrite (proj2 (offer_all_spec fs st)).
    apply elem_of_union_r, elem_of_list_to_set, list_elem_of_fmap. eauto.
Qed.

(** X12: whatever the browser does, the items of a result that [search]
    returns have pairwise distinct ids and are a sub-sequence of the
    accumulated items, and the accumulator is well formed at the end. *)
Theorem search_returns_distinct_ids (E : env) (fuel : nat) (keyword : string)
    (max_items : Z) (filters : option FilterOption)
    (r : SearchResult) (w : world)
    (Hrun : search E fuel keyword max_items filters = (Returned r, w)) :
  NoDup (feed_id <$> result_items r)
  ∧ wf_session (acc w)
  ∧ result_items r `sublist_of` all_feeds (acc w).
Proof.
  unfold search in Hrun.
  destruct (search_body _ _ _ _ _ _) as [r1 w1] eqn:Hbody.
  assert (wf_session (acc w1)) as Hwf.
  { eapply (preserved_search_body wf_session); [apply wf_session_offer|done|].
    apply wf_session_new. }
  assert (result_items r `sublist_of` all_feeds (acc w) ∧ acc w = acc w1)
    as [Hsub Hacc].
  { destruct r1 as [x|e|]; [| |by simplify_eq].
    - injection Hrun as -> <-.
      apply search_body_Returned in Hbody as [[msg ->]| ->].
      + split; [apply sublist_nil_l|done].
      + split; [|done]. cbn. destruct (_ <? _)%Z; [|done].
        apply slice_to_sublist.
    - destruct (is_PlaywrightTimeoutError e); by simplify_eq. }
  rewrite Hacc. split_and!; [|done|by rewrite <- Hacc].
  apply (sublist_NoDup _ (feed_id <$> all_feeds (acc w1))); [apply Hwf|].
  apply fmap_sublist. by rewrite <- Hacc.
Qed.

(** ** The producers and the shape of the result *)

Lemma listener_loop_strings l st :
  listener_loop (JStr <$> l) st = (st, None).
Proof. induction l as [|s l IH]; [done|]. exact IH. Qed.

Lemma response_items_Some resp its :
  response_items resp = Ok (Some its) →
  ∃ kvs kvs' v, resp_json resp = Ok (JDict kvs)
                ∧ assoc "data" kvs = Some (JDict kvs')
                ∧ assoc "items" kvs' = Some v ∧ iter v = Ok its.
Proof.
  unfold response_items. destruct (resp_json resp) as [data|e]; [|discriminate].
  cbn [bind]. destruct data as [|b|n|s|l|kvs]; cbn [truthy contains bind];
    try discriminate.
  - destruct b; discriminate.
  - destruct (negb _); discriminate.
  - destruct (negb _); [|discriminate]. by destruct (substring_in _ _).
  - destruct l; [discriminate|]. by destruct (existsb _ _).
  - destruct kvs as [|kv kvs0]; [discriminate|]. set (kvs := kv :: kvs0).
    cbn [getitem]. destruct (assoc "data" kvs) as [d|] eqn:Hd;
      [|rewrite bool_decide_false by (by intros [? ?]); discriminate].
    rewrite bool_decide_true by done. cbn [bind].
    destruct d as [|b|n|s|l|kvs']; cbn [contains bind getitem];
      try discriminate.
    + by destruct (substring_in _ _).
    + by destruct (existsb _ _).
    + destruct (assoc "items" kvs') as [v|] eqn:Hi;
        [|rewrite bool_decide_false by (by intros [? ?]); discriminate].
      rewrite bool_decide_true by done. cbn [bind].
      destruct (len v); [|discriminate]. cbn [bind].
      destruct (iter v) as [its'|] eqn:Hit; [|discriminate].
      intros [= <-]. by exists kvs, kvs', v.
Qed.

Lemma response_items_list resp kvs kvs' records :
  resp_json resp = Ok (JDict kvs) →
  assoc "data" kvs = Some (JDict kvs') →
  assoc "items" kvs' = Some (JList records) →
  response_items resp = Ok (Some records).
Proof.
  intros Hj Hd Hi. unfold response_items. rewrite Hj. cbn [bind truthy].
  destruct kvs as [|kv kvs0]; [by cbn in Hd|]. cbn [contains].
  cbn [getitem]. rewrite Hd. rewrite bool_decide_true by done.
  cbn [bind getitem contains]. rewrite Hi.
  by rewrite bool_decide_true by done.
Qed.

(** X7: the listener changes the accumulator only for a response whose URL
    contains the search API path, whose status is 200 and whose body is an
    object with an object under [data] that has a list under [items]; for
    such a response it offers the normalised records of that list, in
    order.  Every other response (another URL or status, a body that does
    not decode, other shapes) leaves the accumulator as it is. *)
Theorem handle_response_collects_item_lists (resp : response) (st : session) :
  (handle_response resp st ≠ st →
   substring_in "/api/sns/web/v1/search/notes" (resp_url resp) = true
   ∧ resp_status resp = 200%Z
   ∧ ∃ kvs kvs' records,
       resp_json resp = Ok (JDict kvs)
       ∧ assoc "data" kvs = Some (JDict kvs')
       ∧ assoc "items" kvs' = Some (JList records))
  ∧ (∀ kvs kvs' records,
       substring_in "/api/sns/web/v1/search/notes" (resp_url resp) = true →
       resp_status resp = 200%Z →
       resp_json resp = Ok (JDict kvs) →
       assoc "data" kvs = Some (JDict kvs') →
       assoc "items" kvs' = Some (JList records) →
       handle_response resp st = offer_all (omap normalize records) st).
Proof.
  split.
  - unfold handle_response, search_api_path.
    destruct (substring_in _ _); [|done]. cbn [andb].
    destruct (Z.eqb_spec (resp_status resp) 200) as [Hs|Hs]; [|done].
    destruct (response_items resp) as [[its|]|e] eqn:Hits; [|done..].
    intros Hne. split; [done|]. split; [done|].
    apply response_items_Some in Hits as (kvs & kvs' & v & Hj & Hd & Hi & Hit).
    exists kvs, kvs'.
    destruct v as [|b|n|s|l|kvs'']; cbn [iter] in Hit; simplify_eq.
    + exfalso. apply Hne. by rewrite listener_loop_strings.
    + by eexists.
    + exfalso. apply Hne. by rewrite listener_loop_strings.
  - intros kvs kvs' records Hu Hs Hj Hd Hi.
    unfold handle_response, search_api_path. rewrite Hu, Hs. cbn.
    rewrite (response_items_list _ _ _ _ Hj Hd Hi).
    by rewrite listener_loop_offer_all.
Qed.

(** X8: [_parse_search_results_from_state] always reports as [total] the
    number of items it returns; it returns the empty result when the text
    does not decode and when the decoded state is not an object; and when
    [search.feeds._value] is a list it returns the records that normalise,
    in order, with [has_more] telling whether the list has at least 20 raw
    records. *)
Theorem parse_state_result (loads : string → result json) (text : string) :
  let r := _parse_search_results_from_state loads text in
  total r = Z.of_nat (length (items r))
  ∧ (∀ e, loads text = Raise e → r = empty_result)
  ∧ (∀ state, loads text = Ok state → (∀ kvs, state ≠ JDict kvs) →
       r = empty_result)
  ∧ (∀ state s1 s2 records,
       loads text = Ok state →
       get state "search" empty_dict = Ok s1 →
       get s1 "feeds" empty_dict = Ok s2 →
       get s2 "_value" (JList []) = Ok (JList records) →
       items r = omap normalize records
       ∧ has_more r = bool_decide (20 ≤ length records)).
Proof.
  intros r. subst r. unfold _parse_search_results_from_state. split_and!.
  - repeat (match goal with
            | |- context [bind ?m _] => destruct m; cbn [bind]; [|done]
            end).
    done.
  - by intros e ->.
  - intros state -> Hnd. destruct state; try done. by destruct (Hnd kvs).
  - intros state s1 s2 records H1 H2 H3 H4.
    rewrite H1. cbn [bind]. rewrite H2. cbn [bind]. rewrite H3. cbn [bind].
    rewrite H4. cbn [bind len iter items has_more].
    rewrite parse_loop_omap. split; [done|].
    destruct (Nat.leb_spec 20 (length records)).
    + by rewrite bool_decide_true.
    + rewrite bool_decide_false; [done|lia].
Qed.

Lemma search_body_Returned_count E fuel keyword max_items filters w x w' :
  search_body E fuel keyword max_items filters w = (Returned x, w') →
  (∃ msg, x = Failed false msg [] ∧ filters ≠ None)
  ∨ (x = finalize (all_feeds (acc w')) max_items
     ∧ (max_items ≤ Z.of_nat (length (all_feeds (acc w'))))%Z).
Proof.
  unfold search_body. intros H.
  do 2 (apply bindM_Returned in H as (? & ? & _ & H)).
  apply bindM_Returned in H as ([early|] & ? & Hf & H).
  - left. unfold ret in H. injection H as <- <-.
    destruct (filter_stage_Returned _ _ _ _ _ Hf) as [msg ->].
    exists msg. split; [done|]. intros ->. by cbv in Hf.
  - right. do 3 (apply bindM_Returned in H as (? & ? & _ & H)).
    apply bindM_Returned in H as ([] & w3 & Hscroll & H).
    injection H as <- <-. split; [done|]. by eapply scroll_loop_returns.
Qed.

(** X13: for [max_items >= 0], a result with [has_more = true] has exactly
    [max_items] items, the first [max_items] accumulated ones, and [total]
    is [max_items]. *)
Theorem successful_search_returns_max_items (E : env) (fuel : nat)
    (keyword : string) (max_items : Z) (filters : option FilterOption)
    (r : HarvestResult) (w : world)
    (Hmax : (0 ≤ max_items)%Z)
    (Hrun : search E fuel keyword max_items filters = (Returned (Harvest r), w))
    (Hok : has_more r = true) :
  items r = take (Z.to_nat max_items) (all_feeds (acc w))
  ∧ Z.of_nat (length (items r)) = max_items
  ∧ total r = max_items.
Proof.
  unfold search in Hrun.
  destruct (search_body _ _ _ _ _ _) as [[x|e|] w1] eqn:Hbody.
  - injection Hrun as -> <-.
    apply search_body_Returned_count in Hbody as [[msg [[= ] _]]|[Hfin Hlen]].
    rewrite finalize_nonneg in Hfin by done. injection Hfin as ->.
    cbn [remove_listener acc items total].
    rewrite length_take. split_and!; [done|lia..].
  - destruct (is_PlaywrightTimeoutError e); simplify_eq; by simplify_eq/=.
  - by simplify_eq.
Qed.

(** X14: a result that [search] returns has one of three shapes: the
    filter error (no success, no items, only when filters were given); the
    successful result, with [has_more = true], [total] the number of its
    items, and at least [max_items] items accumulated; or the partial
    result, with all accumulated items, [has_more = false] and [total = 0]
    whatever the number of items. *)
Theorem search_result_shapes (E : env) (fuel : nat) (keyword : string)
    (max_items : Z) (filters : option FilterOption)
    (r : SearchResult) (w : world)
    (Hrun : search E fuel keyword max_items filters = (Returned r, w)) :
  (∃ msg, r = Failed false msg [] ∧ filters ≠ None)
  ∨ (∃ its, r = Harvest {| items := its; has_more := true;
                           total := Z.of_nat (length its) |}
            ∧ its `sublist_of` all_feeds (acc w)
            ∧ (max_items ≤ Z.of_nat (length (all_feeds (acc w))))%Z)
  ∨ r = Harvest {| items := all_feeds (acc w); has_more := false; total := 0 |}.
Proof.
  unfold search in Hrun.
  destruct (search_body _ _ _ _ _ _) as [[x|e|] w1] eqn:Hbody.
  - injection Hrun as -> <-.
    apply search_body_Returned_count in Hbody as [[msg [-> Hf]]|[-> Hlen]].
    + left. eauto.
    + right. left. unfold finalize. eexists. split; [done|].
      cbn [remove_listener acc]. split; [|done].
      destruct (_ <? _)%Z; [apply slice_to_sublist|done].
  - right. right. destruct (is_PlaywrightTimeoutError e); by simplify_eq.
  - by simplify_eq.
Qed.

(** ** More on the normaliser *)

Local Ltac crunch :=
  repeat first
    [ progress cbn [bind try_except get default from_option id]
    | match goal with
      | H : truthy _ = true |- _ => rewrite H
      | |- context [bind ?m _] =>
          lazymatch m with
          | bind _ _ => fail
          | _ => destruct m
          end
      end ];
  try done.

(** X9: the normaliser returns [None] for a record whose [noteCard] is
    present and not an object, whose [user], [interactInfo] or [cover] is
    present and not an object, or whose [video] is truthy and not an
    object. *)
Theorem normalizer_rejects_non_objects (kvs : list (string * json)) :
  (∀ v, assoc "noteCard" kvs = Some v → (∀ k, v ≠ JDict k) →
        _convert_item_to_feed (JDict kvs) = Ok None)
  ∧ (∀ nc key v,
       default empty_dict (assoc "noteCard" kvs) = JDict nc →
       key ∈ ["user"; "interactInfo"; "cover"] →
       assoc key nc = Some v → (∀ k, v ≠ JDict k) →
       _convert_item_to_feed (JDict kvs) = Ok None)
  ∧ (∀ nc v,
       default empty_dict (assoc "noteCard" kvs) = JDict nc →
       assoc "video" nc = Some v → truthy v = true → (∀ k, v ≠ JDict k) →
       _convert_item_to_feed (JDict kvs) = Ok None).
Proof.
  split_and!.
  - intros v Hnc Hv. unfold _convert_item_to_feed, convert_body.
    cbn [get]. rewrite Hnc.
    destruct v; try (by destruct (Hv kvs0)); crunch.
  - intros nc key v Hnc Hkey Hk Hv.
    unfold _convert_item_to_feed, convert_body. cbn [get]. rewrite Hnc.
    rewrite !elem_of_cons, elem_of_nil in Hkey.
    destruct Hkey as [->|[->|[->|[]]]]; cbn [bind get]; rewrite Hk;
      (destruct v; try (by destruct (Hv kvs0))); crunch.
  - intros nc v Hnc Hk Ht Hv.
    unfold _convert_item_to_feed, convert_body. cbn [get]. rewrite Hnc.
    cbn [bind get]; rewrite Hk.
    (destruct v; try (by destruct (Hv kvs0))); crunch.
Qed.

(** X10: in the item that the normaliser returns, the nickname is the
    value of [nickname], or of [nickName] when [nickname] is missing; the
    four counts are [str] of [likedCount], [collectedCount], [commentCount]
    and [sharedCount], each defaulting to ["0"]; the card has a video
    exactly when the value under [video] is truthy; and [images_list] is
    never filled. *)
Theorem normalizer_field_mapping (item : json) (f : Feed)
    (H : _convert_item_to_feed item = Ok (Some f)) :
  ∃ nc ud idata vd,
    get item "noteCard" empty_dict = Ok nc
    ∧ get nc "user" empty_dict = Ok ud
    ∧ get nc "interactInfo" empty_dict = Ok idata
    ∧ get nc "video" JNull = Ok vd
    ∧ (∃ alias, get ud "nickName" (JStr "") = Ok alias
                ∧ get ud "nickname" alias
                  = Ok (JStr (nickname (user (note_card f)))))
    ∧ (∃ a b c d,
         get idata "likedCount" (JStr "0") = Ok a
         ∧ get idata "collectedCount" (JStr "0") = Ok b
         ∧ get idata "commentCount" (JStr "0") = Ok c
         ∧ get idata "sharedCount" (JStr "0") = Ok d
         ∧ liked_count (interact_info (note_card f)) = str a
         ∧ collected_count (interact_info (note_card f)) = str b
         ∧ comment_count (interact_info (note_card f)) = str c
         ∧ share_count (interact_info (note_card f)) = str d)
    ∧ (video (note_card f) = None ↔ truthy vd = false)
    ∧ images_list (note_card f) = None.
Proof.
  assert (convert_body item = Ok f) as Hb.
  { apply normalize_Some. unfold normalize. by rewrite H. }
  clear H. unfold convert_body in Hb.
  apply bind_Ok in Hb as (nc & Hnc & Hb).
  apply bind_Ok in Hb as (ud & Hud & Hb).
  apply bind_Ok in Hb as (idata & Hid & Hb).
  apply bind_Ok in Hb as (cd & Hcd & Hb).
  apply bind_Ok in Hb as (vd & Hvd & Hb).
  apply bind_Ok in Hb as (user & Huser & Hb).
  apply bind_Ok in Hb as (ii & Hii & Hb).
  apply bind_Ok in Hb as (cover & Hcover & Hb).
  apply bind_Ok in Hb as (video & Hvideo & Hb).
  apply bind_Ok in Hb as (card & Hcard & Hb).
  do 4 (apply bind_Ok in Hb as (? & _ & Hb)).
  unfold mk_Feed in Hb. do 4 (apply bind_Ok in Hb as (? & _ & Hb)).
  injection Hb as <-. cbn [note_card].
  apply bind_Ok in Hcard as (? & _ & Hcard).
  apply bind_Ok in Hcard as (? & _ & Hcard).
  unfold mk_NoteCard in Hcard. do 2 (apply bind_Ok in Hcard as (? & _ & Hcard)).
  injection Hcard as <-.
  cbn [Config.user interact_info Config.video images_list].
  exists nc, ud, idata, vd. split_and!; try done.
  - apply bind_Ok in Huser as (? & _ & Huser).
    apply bind_Ok in Huser as (alias & Halias & Huser).
    apply bind_Ok in Huser as (nick & Hnick & Huser).
    do 4 (apply bind_Ok in Huser as (? & _ & Huser)).
    unfold mk_User in Huser. apply bind_Ok in Huser as (? & _ & Huser).
    apply bind_Ok in Huser as (s & Hs & Huser).
    do 3 (apply bind_Ok in Huser as (? & _ & Huser)).
    injection Huser as <-. cbn [nickname].
    apply v_str_Ok in Hs as ->. by exists alias.
  - apply bind_Ok in Hii as (? & _ & Hii).
    apply bind_Ok in Hii as (a & Ha & Hii).
    apply bind_Ok in Hii as (? & _ & Hii).
    apply bind_Ok in Hii as (b & Hb & Hii).
    apply bind_Ok in Hii as (c & Hc & Hii).
    apply bind_Ok in Hii as (d & Hd & Hii).
    unfold mk_InteractInfo in Hii.
    do 2 (apply bind_Ok in Hii as (? & _ & Hii)).
    injection Hii as <-. by exists a, b, c, d.
  - destruct (truthy vd).
    + do 12 (apply bind_Ok in Hvideo as (? & _ & Hvideo)).
      injection Hvideo as <-. by split.
    + by injection Hvideo as <-.
Qed.

(** ** The search URL *)

Lemma unquote_quote_step a s t :
  unquote_plus (quote_plus (String a s) +:+ t)
  = String a (unquote_plus (quote_plus s +:+ t)).
Proof.
  destruct a as [[] [] [] [] [] [] [] []]; reflexivity.
Qed.

Lemma unquote_quote s t :
  unquote_plus (quote_plus s +:+ t) = s +:+ unquote_plus t.
Proof.
  induction s as [|a s IH]; [done|].
  rewrite unquote_quote_step, IH. done.
Qed.

Lemma quote_plus_chars s :
  Forall (fun a => is_unreserved a || url_delimiter a = true)
         (list_ascii_of_string (quote_plus s)).
Proof.
  induction s as [|a s IH]; [constructor|].
  destruct a as [[] [] [] [] [] [] [] []];
    cbn [quote_plus]; repeat (constructor; [reflexivity|]); exact IH.
Qed.

Lemma list_ascii_app s t :
  list_ascii_of_string (s +:+ t)
  = list_ascii_of_string s ++ list_ascii_of_string t.
Proof.
  induction s as [|a s IH]; [done|].
  change (a :: list_ascii_of_string (s +:+ t)
          = a :: (list_ascii_of_string s ++ list_ascii_of_string t)).
  by rewrite IH.
Qed.

Lemma string_app_inv_tail s1 s2 t : s1 +:+ t = s2 +:+ t → s1 = s2.
Proof.
  intros H. apply (f_equal list_ascii_of_string) in H.
  rewrite !list_ascii_app in H. apply app_inv_tail in H.
  apply (f_equal string_of_list_ascii) in H.
  by rewrite !string_of_list_ascii_of_string in H.
Qed.

Lemma make_search_url_eq keyword :
  _make_search_url keyword
  = "https://www.xiaohongshu.com/search_result?keyword="
    +:+ (quote_plus keyword +:+ "&source=web_explore_feed").
Proof. reflexivity. Qed.

(** X11: a search URL consists of unreserved characters and of the
    delimiters [+ % = & : / ?] only, whatever the keyword; two keywords with
    the same URL are equal; and decoding the quoted keyword gives the
    keyword back. *)
Theorem search_url_is_safe_and_injective (keyword : string) :
  Forall (fun a => is_unreserved a || url_delimiter a = true)
         (list_ascii_of_string (_make_search_url keyword))
  ∧ (∀ keyword', _make_search_url keyword = _make_search_url keyword' →
                 keyword = keyword')
  ∧ unquote_plus (quote_plus keyword) = keyword.
Proof.
  split_and!.
  - rewrite make_search_url_eq, !list_ascii_app. apply Forall_app. split.
    { cbn. repeat (constructor; [reflexivity|]). constructor. }
    apply Forall_app. split; [apply quote_plus_chars|].
    cbn. repeat (constructor; [reflexivity|]). constructor.
  - intros keyword' H. rewrite !make_search_url_eq in H.
    apply (inj (String.app _)) in H.
    apply (f_equal unquote_plus) in H. rewrite !unquote_quote in H.
    by apply string_app_inv_tail in H.
  - pose proof (unquote_quote keyword "") as H.
    assert (∀ s, s +:+ "" = s) as Hnil.
    { induction s as [|a s IH]; [done|].
      change (String a (s +:+ "") = String a s). by rewrite IH. }
    by rewrite !Hnil in H.
Qed.

(** ** Responses that arrive before the listener is registered *)

Section Deaf.
Variables E E' : env.
Hypothesis Hsame : same_calls E E'.

Lemma bindM_eq {A B} (m m' : M A) (k k' : A → M B) w :
  m w = m' w →
  (∀ a w1, m w = (Returned a, w1) → k a w1 = k' a w1) →
  bindM m k w = bindM m' k' w.
Proof.
  intros Hm Hk. unfold bindM. rewrite <- Hm.
  destruct (m w) as [[a|e|] w1]; [by apply Hk|done..].
Qed.

Lemma catch_eq {A} (m m' : M A) (h : exn → M A) w :
  m w = m' w → catch m h w = catch m' h w.
Proof. unfold catch. by intros ->. Qed.

Lemma catch_ValueError_eq {A} (m m' : M A) (h : exn → M A) w :
  m w = m' w → catch_ValueError m h w = catch_ValueError m' h w.
Proof. unfold catch_ValueError. by intros ->. Qed.

Lemma await_Returned a w v w1 :
  await E a w = (Returned v, w1) →
  listening w1 = listening w ∧ length (trace w1) = S (length (trace w)).
Proof.
  unfold await. destruct (raised _); intros [= _ <-]; cbn.
  rewrite length_app. simpl. split; [done|lia].
Qed.

Lemma await_deaf a w : listening w = false → await E a w = await E' a w.
Proof.
  intros Hl. unfold await. rewrite Hl.
  destruct Hsame as [Hc _]. destruct (Hc (length (trace w))) as [-> ->]. done.
Qed.

Lemma await_heard a w :
  delivered (page E (length (trace w))) = delivered (page E' (length (trace w))) →
  await E a w = await E' a w.
Proof.
  intros Hd. unfold await. rewrite Hd.
  destruct Hsame as [Hc _]. destruct (Hc (length (trace w))) as [-> ->]. done.
Qed.

Lemma click_loop_deaf l w :
  listening w = false →
  click_loop E l w = click_loop E' l w
  ∧ ∀ x w1, click_loop E l w = (Returned x, w1) →
      listening w1 = false ∧ length (trace w1) = length (trace w) + 2 * length l.
Proof.
  revert w. induction l as [|o l IH]; intros w Hl; cbn [click_loop].
  { split; [done|]. intros x w1 [= _ <-]. split; [done|simpl; lia]. }
  split.
  - apply bindM_eq; [by apply await_deaf|]. intros v w1 H1.
    destruct (await_Returned _ _ _ _ H1) as [Hl1 _].
    apply bindM_eq; [apply await_deaf; congruence|]. intros v2 w2 H2.
    destruct (await_Returned _ _ _ _ H2) as [Hl2 _].
    apply IH. congruence.
  - intros x w3 H.
    apply bindM_Returned in H as (v1 & w1 & H1 & H).
    apply bindM_Returned in H as (v2 & w2 & H2 & H).
    destruct (await_Returned _ _ _ _ H1) as [Hl1 Hn1].
    destruct (await_Returned _ _ _ _ H2) as [Hl2 Hn2].
    destruct (proj2 (IH w2 ltac:(congruence)) _ _ H) as [Hl3 Hn3].
    split; [done|]. rewrite Hn3, Hn2, Hn1. simpl. lia.
Qed.

Lemma filter_stage_deaf filters w :
  listening w = false →
  filter_stage E filters w = filter_stage E' filters w
  ∧ ∀ w1, filter_stage E filters w = (Returned None, w1) →
      listening w1 = false
      ∧ length (trace w1) + 2 = length (trace w) + calls_before_listening filters.
Proof.
  intros Hl. destruct filters as [f|]; cbn [filter_stage calls_before_listening].
  2:{ split; [done|]. intros w1 [= <-]. split; [done|lia]. }
  split.
  - apply catch_ValueError_eq. apply bindM_eq; [done|]. intros l w0 H0.
    assert (w0 = w) as -> by (unfold lift in H0; by destruct (_apply_filters f); simplify_eq).
    apply bindM_eq; [by apply await_deaf|]. intros v1 w1 H1.
    destruct (await_Returned _ _ _ _ H1) as [Hl1 _].
    apply bindM_eq; [apply await_deaf; congruence|]. intros v2 w2 H2.
    destruct (await_Returned _ _ _ _ H2) as [Hl2 _].
    apply bindM_eq; [apply click_loop_deaf; congruence|]. done.
  - intros w4 H. unfold catch_ValueError in H.
    destruct (bindM _ _ w) as [[o|e|] w'] eqn:Hbody; simplify_eq.
    2:{ destruct (is_ValueError e); unfold ret in H; simplify_eq. }
    apply bindM_Returned in Hbody as (l & w0 & H0 & Hbody).
    unfold lift in H0. destruct (_apply_filters f) as [l'|] eqn:Hf; simplify_eq.
    apply bindM_Returned in Hbody as (v1 & w1 & H1 & Hbody).
    apply bindM_Returned in Hbody as (v2 & w2 & H2 & Hbody).
    apply bindM_Returned in Hbody as (x & w3 & H3 & Hbody).
    unfold ret in Hbody. simplify_eq.
    destruct (await_Returned _ _ _ _ H1) as [Hl1 Hn1].
    destruct (await_Returned _ _ _ _ H2) as [Hl2 Hn2].
    destruct (proj2 (click_loop_deaf l w2 ltac:(congruence)) _ _ H3) as [Hl3 Hn3].
    split; [done|]. rewrite Hn3, Hn2, Hn1. lia.
Qed.

Variable n : nat.
Hypothesis Hheard :
  ∀ k, n ≤ k → delivered (page E k) = delivered (page E' k).

Lemma await_late a w :
  n ≤ length (trace w) → await E a w = await E' a w.
Proof. intros Hn. by apply await_heard, Hheard. Qed.

Lemma scroll_loop_late fuel keyword max_items w :
  n ≤ length (trace w) →
  scroll_loop E fuel keyword max_items w
  = scroll_loop E' fuel keyword max_items w.
Proof.
  revert w. induction fuel as [|fuel IH]; intros w Hn; cbn [scroll_loop];
    [done|].
  destruct (_ <? _)%Z; [|done].
  apply bindM_eq; [by apply await_late|]. intros v1 w1 H1.
  destruct (await_Returned _ _ _ _ H1) as [_ Hn1].
  apply bindM_eq; [apply await_late; lia|]. intros v2 w2 H2.
  destruct (await_Returned _ _ _ _ H2) as [_ Hn2].
  apply bindM_eq; [apply await_late; lia|]. intros v3 w3 H3.
  destruct (await_Returned _ _ _ _ H3) as [_ Hn3].
  apply bindM_eq; [apply await_late; lia|]. intros v4 w4 H4.
  destruct (await_Returned _ _ _ _ H4) as [_ Hn4].
  apply IH. lia.
Qed.

Lemma parse_same text :
  _parse_search_results_from_state (json_loads E) text
  = _parse_search_results_from_state (json_loads E') text.
Proof.
  unfold _parse_search_results_from_state.
  destruct Hsame as [_ Hl]. by rewrite Hl.
Qed.

Lemma initial_state_stage_late w :
  n ≤ length (trace w) →
  initial_state_stage E w = initial_state_stage E' w.
Proof.
  intros Hn. unfold initial_state_stage. apply catch_eq.
  apply bindM_eq; [by apply await_late|]. intros v1 w1 H1.
  destruct (await_Returned _ _ _ _ H1) as [_ Hn1].
  apply bindM_eq; [apply await_late; lia|]. intros v2 w2 H2.
  destruct (negb _); [|done]. by rewrite parse_same.
Qed.
End Deaf.

(** X15: the listener is registered only after the navigation and the
    filter stage.  Two browsers that behave alike except for the responses
    they emit during the calls made before that give the same result, the
    same accumulator and the same trace: responses that arrive earlier are
    lost. *)
Theorem responses_before_listening_are_ignored (E E' : env) (fuel : nat)
    (keyword : string) (max_items : Z) (filters : option FilterOption)
    (Hsame : same_calls E E')
    (Hheard : ∀ k, calls_before_listening filters ≤ k →
                   delivered (page E k) = delivered (page E' k)) :
  search E fuel keyword max_items filters
  = search E' fuel keyword max_items filters.
Proof.
  unfold search.
  assert (search_body E fuel keyword max_items filters new_world
          = search_body E' fuel keyword max_items filters new_world) as ->;
    [|done].
  unfold search_body.
  apply bindM_eq; [by apply await_deaf|]. intros v1 w1 H1.
  destruct (await_Returned _ _ _ _ _ H1) as [Hl1 Hn1].
  apply bindM_eq; [by apply await_deaf|]. intros v2 w2 H2.
  destruct (await_Returned _ _ _ _ _ H2) as [Hl2 Hn2].
  assert (listening w2 = false) as Hl2' by (by rewrite Hl2, Hl1).
  destruct (filter_stage_deaf E E' Hsame filters w2 Hl2') as [Hfs Hfs'].
  apply bindM_eq; [done|]. intros [r|] w3 H3; [done|].
  destruct (Hfs' _ H3) as [Hl3 Hn3].
  assert (calls_before_listening filters ≤ length (trace w3)) as Hn3'.
  { rewrite Hn2, Hn1 in Hn3. simpl in Hn3. lia. }
  apply bindM_eq; [done|]. intros [] w4 [= <-].
  apply bindM_eq; [by eapply await_late|]. intros v5 w5 H5.
  destruct (await_Returned _ _ _ _ _ H5) as [_ Hn5]. cbn [trace] in Hn5.
  apply bindM_eq; [eapply initial_state_stage_late; [done..|lia]|].
  intros [] w6 H6.
  destruct (spec_initial_state_stage E _ _ _ H6) as (t & Ht & _).
  apply bindM_eq; [|done].
  eapply scroll_loop_late; [done..|]. rewrite Ht, length_app. lia.
Qed.

(** ** The calls of the filter stage *)

Lemma await_unheard_ok E a w :
  listening w = false → raised (page E (length (trace w))) = None →
  await E a w
  = (Returned (value (page E (length (trace w)))),
     {| acc := acc w; listening := false; trace := trace w ++ [a] |}).
Proof. intros Hl Hr. unfold await. by rewrite Hr, Hl. Qed.

Lemma click_loop_trace E l w :
  listening w = false →
  (∀ k, length (trace w) ≤ k < length (trace w) + 2 * length l →
        raised (page E k) = None) →
  click_loop E l w
  = (Returned tt, {| acc := acc w; listening := false;
                     trace := trace w ++ filter_calls l |}).
Proof.
  revert w. induction l as [|o l IH]; intros w Hl Hr; cbn [click_loop].
  { unfold ret. cbn. rewrite app_nil_r. by destruct w; simplify_eq/=. }
  unfold bindM at 1.
  rewrite await_unheard_ok; [|done|apply Hr; simpl; lia].
  unfold bindM at 1.
  rewrite await_unheard_ok; cbn [trace listening acc];
    [|done|apply Hr; rewrite length_app; simpl; lia].
  rewrite IH; cbn [trace listening acc]; [|done|].
  - by rewrite <- !app_assoc.
  - intros k Hk. apply Hr. rewrite !length_app in Hk. simpl in *. lia.
Qed.

Lemma spec_after_filters E fuel keyword max_items :
  spec E (fun _ => True) (after_filters E fuel keyword max_items).
Proof.
  unfold after_filters.
  apply spec_bind; [apply spec_page_on|]. intros _.
  apply spec_bind; [by apply spec_await|]. intros _.
  apply spec_bind; [apply spec_initial_state_stage|]. intros _.
  apply spec_bind; [apply spec_scroll_loop|]. intros _.
  apply spec_silent. by intros w r w' [= _ <-].
Qed.

(** X16: when the selection translates and the calls of the navigation and
    of the filter stage do not raise, [search] makes these calls first and
    in this order: goto, wait for load, hover over the filter button, wait
    for the panel, and then, for each option that [_apply_filters] returns,
    a click on the selector of the option followed by a delay; the clicks
    are the selectors of the options in the order of the list. *)
Theorem filters_are_clicked_in_order (E : env) (fuel : nat)
    (keyword : string) (max_items : Z) (f : FilterOption)
    (l : list InternalFilterOption)
    (Hl : _apply_filters f = Ok l)
    (Hok : ∀ k, k < 4 + 2 * length l → raised (page E k) = None) :
  ∃ rest,
    trace (search E fuel keyword max_items (Some f)).2
    = [Goto (_make_search_url keyword); WaitForLoadState;
       Hover "div.filter"; WaitForFunction FilterPanelPresent 5000]
      ++ filter_calls l ++ rest
    ∧ clicks ([Goto (_make_search_url keyword); WaitForLoadState;
               Hover "div.filter"; WaitForFunction FilterPanelPresent 5000]
              ++ filter_calls l)
      = click_selector <$> l.
Proof.
  set (w3 := {| acc := new_session; listening := false;
                trace := [Goto (_make_search_url keyword); WaitForLoadState;
                          Hover "div.filter";
                          WaitForFunction FilterPanelPresent 5000]
                         ++ filter_calls l |}).
  assert (search_body E fuel keyword max_items (Some f) new_world
          = after_filters E fuel keyword max_items w3) as Hbody.
  { unfold search_body, filter_stage, catch_ValueError.
    unfold bindM at 1. rewrite await_unheard_ok; [|done|apply Hok; simpl; lia].
    unfold bindM at 1. rewrite await_unheard_ok; [|done|apply Hok; simpl; lia].
    unfold bindM at 1. unfold bindM at 1. rewrite Hl. unfold lift.
    cbn [new_world acc listening trace app].
    unfold bindM at 1.
    rewrite await_unheard_ok; [|done|apply Hok; simpl; lia].
    unfold bindM at 1.
    rewrite await_unheard_ok; [|done|apply Hok; simpl; lia].
    cbn [acc listening trace app].
    unfold bindM at 1. rewrite click_loop_trace; cbn [acc listening trace];
      [|done|intros k Hk; apply Hok; simpl in Hk; lia].
    unfold ret. reflexivity. }
  destruct (after_filters E fuel keyword max_items w3) as [r w'] eqn:Hrun.
  destruct (spec_after_filters E _ _ _ _ _ _ Hrun) as (t & Ht & _).
  exists t. split.
  - unfold search. rewrite Hbody. cbn [trace] in Ht.
    destruct r; cbn; rewrite Ht; reflexivity.
  - cbn [app]. unfold clicks. cbn [omap list_omap].
    clear. induction l as [|o l IH]; [done|]. cbn. by rewrite <- IH.
Qed.

(** ** The further properties at concrete inputs *)

Lemma find_internal_option_table_witness :
  find_internal_option 2 "视频" = Ok (opt 2 2 "视频")
  ∧ ¬ (1 ≤ 9 ≤ 5)%Z
  ∧ find_internal_option 9 "视频" = Raise (Exn ValueError "筛选组 9 不存在").
Proof.
  split.
  { apply (proj1 (find_internal_option_table 2 "视频")).
    exists [opt 2 1 "不限"; opt 2 2 "视频"; opt 2 3 "图文"].
    split; [reflexivity|]. split; [right; left | reflexivity]. }
  assert (¬ (1 ≤ 9 ≤ 5)%Z) as H9 by lia.
  split; [exact H9|].
  exact (proj2 (proj2 (find_internal_option_table 9 "视频")) H9).
Defined.

Lemma validate_accepts_table_index_pairs_witness :
  FILTER_OPTIONS_MAP !! 2%Z = Some [opt 2 1 "不限"; opt 2 2 "视频"; opt 2 3 "图文"]
  ∧ validate_internal_filter_option (opt 2 3 "任意") = Ok tt.
Proof.
  assert (FILTER_OPTIONS_MAP !! 2%Z
          = Some [opt 2 1 "不限"; opt 2 2 "视频"; opt 2 3 "图文"]) as Hg
    by reflexivity.
  split; [exact Hg|].
  apply (proj1 (validate_accepts_table_index_pairs (opt 2 3 "任意"))).
  exists [opt 2 1 "不限"; opt 2 2 "视频"; opt 2 3 "图文"], (opt 2 3 "图文").
  split; [exact Hg|]. split; [right; right; left | reflexivity].
Defined.

Lemma convert_translates_set_fields_witness :
  convert_to_internal_filters latest_only = Ok [opt 1 2 "最新"]
  ∧ (filters_index <$> [opt 1 2 "最新"]) `sublist_of` [1; 2; 3; 4; 5]%Z
  ∧ Forall (fun o => validate_internal_filter_option o = Ok tt)
           [opt 1 2 "最新"].
Proof.
  assert (convert_to_internal_filters latest_only = Ok [opt 1 2 "最新"])
    as Hc by reflexivity.
  split; [exact Hc|].
  exact (proj2 (proj2 (convert_translates_set_fields latest_only) _ Hc)).
Defined.

Lemma apply_filters_skips_after_removal_witness :
  convert_to_internal_filters FilterOption_default
  = Ok [opt 1 1 "综合"; opt 2 1 "不限"; opt 3 1 "不限"; opt 4 1 "不限";
        opt 5 1 "不限"]
  ∧ _apply_filters FilterOption_default = Ok [opt 2 1 "不限"; opt 4 1 "不限"].
Proof.
  assert (convert_to_internal_filters FilterOption_default
          = Ok [opt 1 1 "综合"; opt 2 1 "不限"; opt 3 1 "不限";
                opt 4 1 "不限"; opt 5 1 "不限"]) as Hc by reflexivity.
  split; [exact Hc|].
  exact (proj1 (apply_filters_skips_after_removal _ _ Hc)).
Defined.

Lemma apply_filters_retains_witness :
  convert_to_internal_filters latest_and_defaults
  = Ok [opt 1 2 "最新"; opt 2 1 "不限"; opt 3 1 "不限"; opt 4 1 "不限";
        opt 5 1 "不限"]
  ∧ ∃ l', _apply_filters latest_and_defaults = Ok l'
          ∧ l' `sublist_of` [opt 1 2 "最新"; opt 2 1 "不限"; opt 3 1 "不限";
                             opt 4 1 "不限"; opt 5 1 "不限"]
          ∧ ∀ o, o ∈ [opt 1 2 "最新"; opt 2 1 "不限"; opt 3 1 "不限";
                      opt 4 1 "不限"; opt 5 1 "不限"] →
                 tags_index o ≠ 1%Z → o ∈ l'.
Proof.
  assert (convert_to_internal_filters latest_and_defaults
          = Ok [opt 1 2 "最新"; opt 2 1 "不限"; opt 3 1 "不限";
                opt 4 1 "不限"; opt 5 1 "不限"]) as Hc by reflexivity.
  split; [exact Hc|]. exact (apply_filters_retains _ _ Hc).
Defined.

Lemma handle_response_keeps_accumulator_witness :
  wf_session new_session
  ∧ wf_session (handle_response response_a_a_b new_session)
  ∧ all_feeds (handle_response response_a_a_b new_session)
    = [feed_of_id "a"; feed_of_id "b"].
Proof.
  assert (wf_session new_session) as Hwf.
  { split; [constructor | reflexivity]. }
  split; [exact Hwf|].
  split; [|vm_compute; reflexivity].
  exact (proj1 (proj2 (handle_response_keeps_accumulator response_a_a_b
                         new_session)) Hwf).
Defined.

Lemma search_returns_distinct_ids_witness :
  let rw := search env_two_producers 1 "k" 5 None in
  rw = (Returned (Harvest {| items := [feed_of_id "a"; feed_of_id "b";
                                       feed_of_id "c"; feed_of_id "d";
                                       feed_of_id "e"];
                             has_more := true; total := 5 |}), rw.2)
  ∧ NoDup ["a"; "b"; "c"; "d"; "e"].
Proof.
  intros rw.
  assert (rw = (Returned (Harvest {| items := [feed_of_id "a"; feed_of_id "b";
                                               feed_of_id "c"; feed_of_id "d";
                                               feed_of_id "e"];
                                     has_more := true; total := 5 |}), rw.2))
    as Hrun by (vm_compute; reflexivity).
  split; [exact Hrun|].
  exact (proj1 (search_returns_distinct_ids _ _ _ _ _ _ _ Hrun)).
Defined.

Lemma handle_response_collects_item_lists_witness :
  substring_in "/api/sns/web/v1/search/notes" (resp_url response_a_a_b) = true
  ∧ resp_status response_a_a_b = 200%Z
  ∧ handle_response response_a_a_b new_session
    = offer_all [feed_of_id "a"; feed_of_id "a"; feed_of_id "b"] new_session.
Proof.
  assert (substring_in "/api/sns/web/v1/search/notes"
            (resp_url response_a_a_b) = true) as Hu by reflexivity.
  assert (resp_status response_a_a_b = 200%Z) as Hs by reflexivity.
  split; [exact Hu|]. split; [exact Hs|].
  exact (proj2 (handle_response_collects_item_lists response_a_a_b new_session)
           _ _ _ Hu Hs eq_refl eq_refl eq_refl).
Defined.

Lemma parse_state_result_witness :
  let loads := fun _ : string =>
    Ok (state_with [record_of_id "a"; JInt 3; record_of_id "a"]) in
  items (_parse_search_results_from_state loads "{}")
  = [feed_of_id "a"; feed_of_id "a"]
  ∧ has_more (_parse_search_results_from_state loads "{}") = false
  ∧ _parse_search_results_from_state no_json "{" = empty_result.
Proof.
  intros loads.
  destruct (proj2 (proj2 (proj2 (parse_state_result loads "{}")))
              _ _ _ [record_of_id "a"; JInt 3; record_of_id "a"]
              eq_refl eq_refl eq_refl eq_refl) as [Hi Hm].
  split; [exact Hi|]. split; [exact Hm|].
  exact (proj1 (proj2 (parse_state_result no_json "{")) _ eq_refl).
Defined.

Lemma successful_search_returns_max_items_witness :
  let rw := search env_two_producers 1 "k" 5 None in
  (0 ≤ 5)%Z
  ∧ rw = (Returned (Harvest {| items := [feed_of_id "a"; feed_of_id "b";
                                         feed_of_id "c"; feed_of_id "d";
                                         feed_of_id "e"];
                               has_more := true; total := 5 |}), rw.2)
  ∧ Z.of_nat (length [feed_of_id "a"; feed_of_id "b"; feed_of_id "c";
                      feed_of_id "d"; feed_of_id "e"]) = 5%Z.
Proof.
  intros rw.
  assert (0 ≤ 5)%Z as H0 by lia.
  assert (rw = (Returned (Harvest {| items := [feed_of_id "a"; feed_of_id "b";
                                               feed_of_id "c"; feed_of_id "d";
                                               feed_of_id "e"];
                                     has_more := true; total := 5 |}), rw.2))
    as Hrun by (vm_compute; reflexivity).
  split; [exact H0|]. split; [exact Hrun|].
  exact (proj1 (proj2 (successful_search_returns_max_items _ _ _ _ _ _ _
                         H0 Hrun eq_refl))).
Defined.

Lemma search_result_shapes_witness :
  let rw := search env_scroll_fails 1 "k" 5 None in
  rw = (Returned (Harvest {| items := [feed_of_id "a"]; has_more := false;
                             total := 0 |}), rw.2)
  ∧ ((∃ msg, Harvest {| items := [feed_of_id "a"]; has_more := false;
                        total := 0 |} = Failed false msg []
             ∧ @None FilterOption ≠ None)
     ∨ (∃ its, Harvest {| items := [feed_of_id "a"]; has_more := false;
                          total := 0 |}
               = Harvest {| items := its; has_more := true;
                            total := Z.of_nat (length its) |}
               ∧ its `sublist_of` all_feeds (acc rw.2)
               ∧ (5 ≤ Z.of_nat (length (all_feeds (acc rw.2))))%Z)
     ∨ Harvest {| items := [feed_of_id "a"]; has_more := false; total := 0 |}
       = Harvest {| items := all_feeds (acc rw.2); has_more := false;
                    total := 0 |}).
Proof.
  intros rw.
  assert (rw = (Returned (Harvest {| items := [feed_of_id "a"];
                                     has_more := false; total := 0 |}), rw.2))
    as Hrun by (vm_compute; reflexivity).
  split; [exact Hrun|].
  exact (search_result_shapes _ _ _ _ _ _ _ Hrun).
Defined.

Lemma normalizer_rejects_non_objects_witness :
  assoc "noteCard" [("id", JStr "a"); ("noteCard", JNull)] = Some JNull
  ∧ _convert_item_to_feed (JDict [("id", JStr "a"); ("noteCard", JNull)])
    = Ok None.
Proof.
  split; [reflexivity|].
  apply (proj1 (normalizer_rejects_non_objects
                  [("id", JStr "a"); ("noteCard", JNull)]) JNull eq_refl).
  intros k. discriminate.
Defined.

Lemma normalizer_field_mapping_witness :
  ∃ f, _convert_item_to_feed record_with_alias = Ok (Some f)
       ∧ nickname (user (note_card f)) = "Li"
       ∧ liked_count (interact_info (note_card f)) = Str "12"
       ∧ video (note_card f) = None
       ∧ images_list (note_card f) = None.
Proof.
  destruct (_convert_item_to_feed record_with_alias) as [[f|]|e] eqn:H;
    [|vm_compute in H; discriminate..].
  exists f. split; [reflexivity|].
  destruct (normalizer_field_mapping _ _ H)
    as (nc & ud & idata & vd & Hnc & Hud & Hid & Hvd & (alias & Ha & Hn)
        & (a & b & c & d & Hlike & _ & _ & _ & Hl & _) & Hvideo & Himg).
  vm_compute in Hnc. injection Hnc as <-.
  vm_compute in Hud. injection Hud as <-.
  vm_compute in Hid. injection Hid as <-.
  vm_compute in Hvd. injection Hvd as <-.
  vm_compute in Ha. injection Ha as <-.
  vm_compute in Hn. injection Hn as Hn.
  vm_compute in Hlike. injection Hlike as <-.
  split; [symmetry; exact Hn|]. split; [exact Hl|].
  split; [by apply Hvideo | exact Himg].
Defined.

Lemma search_url_is_safe_and_injective_witness :
  quote_plus "综 合" = "%E7%BB%BC+%E5%90%88"
  ∧ unquote_plus (quote_plus "综 合") = "综 合"
  ∧ Forall (fun a => is_unreserved a || url_delimiter a = true)
           (list_ascii_of_string (_make_search_url "综 合")).
Proof.
  split; [reflexivity|].
  destruct (search_url_is_safe_and_injective "综 合") as (Hsafe & _ & Hback).
  split; [exact Hback | exact Hsafe].
Defined.

Lemma same_calls_early : same_calls env_early_responses quiet.
Proof.
  split; [|done]. intros k. unfold env_early_responses, scripted, quiet.
  cbn [page]. destruct k as [|[|k]]; split; reflexivity.
Defined.

Lemma responses_before_listening_are_ignored_witness :
  same_calls env_early_responses quiet
  ∧ (∀ k, calls_before_listening None ≤ k →
          delivered (page env_early_responses k) = delivered (page quiet k))
  ∧ search env_early_responses 2 "k" 1 None = search quiet 2 "k" 1 None.
Proof.
  assert (∀ k, calls_before_listening None ≤ k →
               delivered (page env_early_responses k)
               = delivered (page quiet k)) as Hheard.
  { intros k Hk. cbn in Hk. destruct k as [|[|k]]; [lia..|reflexivity]. }
  split; [exact same_calls_early|]. split; [exact Hheard|].
  exact (responses_before_listening_are_ignored _ _ 2 "k" 1 None
           same_calls_early Hheard).
Defined.

Lemma filters_are_clicked_in_order_witness :
  _apply_filters (single 1 "最新") = Ok [opt 1 2 "最新"]
  ∧ (∀ k, k < 4 + 2 * 1 → raised (page quiet k) = None)
  ∧ ∃ rest,
      trace (search quiet 0 "k" 0 (Some (single 1 "最新"))).2
      = [Goto (_make_search_url "k"); WaitForLoadState; Hover "div.filter";
         WaitForFunction FilterPanelPresent 5000]
        ++ filter_calls [opt 1 2 "最新"] ++ rest.
Proof.
  assert (_apply_filters (single 1 "最新") = Ok [opt 1 2 "最新"]) as Hl
    by reflexivity.
  assert (∀ k, k < 4 + 2 * 1 → raised (page quiet k) = None) as Hok
    by (intros; reflexivity).
  split; [exact Hl|]. split; [exact Hok|].
  destruct (filters_are_clicked_in_order quiet 0 "k" 0 _ _ Hl Hok)
    as (rest & Ht & _).
  exists rest. exact Ht.
Defined.

Lemma search_keeps_running_witness :
  (0 < 1)%Z ∧ value (page quiet 4) = ""
  ∧ ∃ w, search quiet 3 "k" 1 None = (Running, w)
         ∧ all_feeds (acc w) = []
         ∧ length (trace w) = 5 + 4 * 3.
Proof.
  assert (0 < 1)%Z as Hmax by lia.
  assert (value (page quiet 4) = "") as Hvalue by reflexivity.
  split; [exact Hmax|]. split; [exact Hvalue|].
  apply (search_keeps_running quiet 3 "k" 1 Hmax); [|exact Hvalue].
  intros k. split; reflexivity.
Defined.
